(** * KPI backend: the chat service, the start-up check and the seed generator

    A shallow embedding of [main.py] (chat service with a session store),
    of the start-up check shared by [main.py] and [db-agent.py], and of
    [database.py] (schema, [recreate_schema], [generate_sample_data],
    [insert_kpi_catalog], [main]).

    Python exceptions are values of [Exception]; a computation that may raise
    returns a [Result].  The module-level dict [store] of [main.py] is a
    [gmap string (list Message)] threaded through the handlers; the database
    session of [database.py] is a state record threaded by a state-and-error
    monad, and [random] / [Faker] are read from an arbitrary stream. *)

From stdpp Require Import base functions gmap list strings pretty.
From Stdlib Require Import ZArith Lia.

Set Warnings "-register-all".

Local Open Scope string_scope.
Local Open Scope list_scope.

(** ** Exceptions and results *)

(** An instance of Python's [Exception]: its class name and [str(e)]. *)
Record Exception := Exc { exc_class : string; exc_str : string }.

Inductive Result (A : Type) :=
| Returned (a : A)
| Raised (e : Exception).
Arguments Returned {A} a.
Arguments Raised {A} e.

Definition ValueError (msg : string) : Exception := Exc "ValueError" msg.
Definition IndexError (msg : string) : Exception := Exc "IndexError" msg.
Definition ZeroDivisionError (msg : string) : Exception :=
  Exc "ZeroDivisionError" msg.

(** ** JSON values returned by the FastAPI handlers (Python dict literals) *)

Inductive Json :=
| JStr (s : string)
| JInt (n : nat)
| JList (l : list Json)
| JDict (kv : list (string * Json)).

Definition keys (j : Json) : list string :=
  match j with
  | JDict kv => kv.*1
  | _ => []
  end.

Fixpoint assoc (k : string) (kv : list (string * Json)) : option Json :=
  match kv with
  | [] => None
  | (k', v) :: kv' => if decide (k' = k) then Some v else assoc k kv'
  end.

(** [j.get(k)] *)
Definition field (k : string) (j : Json) : option Json :=
  match j with
  | JDict kv => assoc k kv
  | _ => None
  end.

(** ** main.py: the chat service *)

Module Chat.

(** The message classes [RunnableWithMessageHistory] stores. *)
Inductive MessageClass := HumanMessage | AIMessage.

(** [msg.__class__.__name__] *)
Definition class_name (c : MessageClass) : string :=
  match c with
  | HumanMessage => "HumanMessage"
  | AIMessage => "AIMessage"
  end.

Record Message := { msg_class : MessageClass; content : string }.

(** [store: Dict[str, InMemoryChatMessageHistory]].  An
    [InMemoryChatMessageHistory] is its [messages] list.  Every history object
    is created by [get_session_history] for one key and is never stored under
    another, so no two keys alias and a map to values is exact. *)
Abbreviation Store := (gmap string (list Message)).

Record ChatRequest := { session_id : string; message : string }.
Record ChatResponse := { reply : string }.

(** [get_session_history]: get or create the history of a session. *)
Definition get_session_history (session_id : string) (store : Store)
  : list Message * Store :=
  match store !! session_id with
  | None => ([], <[session_id := []]> store)
  | Some h => (h, store)
  end.

(** [InMemoryChatMessageHistory.clear]: [self.messages = []]. *)
Definition clear (h : list Message) : list Message := [].

Section Handlers.

(** [chain = prompt | llm]: the external model call, given the history and the
    input.  It returns the content of the [AIMessage] or raises. *)
Variable chain : list Message → string → Result string.

(** [chain_with_history.invoke] of langchain_core's
    [RunnableWithMessageHistory] (a library, not part of the repository),
    after its documented behaviour: it obtains the history through
    [get_session_history], runs the chain on the stored messages and the
    input, and, when the chain ends without an error, appends the input as a
    [HumanMessage] and the output as an [AIMessage]; when the chain raises,
    nothing is appended and the exception propagates. *)
Definition chain_with_history_invoke (input session_id : string)
    (store : Store) : Result string * Store :=
  let '(h, store1) := get_session_history session_id store in
  match chain h input with
  | Returned out =>
      (Returned out,
       <[session_id := h ++ [ {| msg_class := HumanMessage; content := input |};
                              {| msg_class := AIMessage; content := out |} ]]>
         store1)
  | Raised e => (Raised e, store1)
  end.

(** [POST /chat].  The handler's own result is a [Result]: [Raised] would be
    an exception leaving the handler. *)
Definition chat (request : ChatRequest) (store : Store)
  : Result ChatResponse * Store :=
  match chain_with_history_invoke (message request) (session_id request) store
  with
  | (Returned content, store') => (Returned {| reply := content |}, store')
  | (Raised e, store') =>
      (Returned {| reply := "Error: " +:+ exc_str e |}, store')
  end.

End Handlers.

(** [DELETE /chat/{session_id}] *)
Definition clear_history (session_id : string) (store : Store)
  : Json * Store :=
  match store !! session_id with
  | Some h =>
      (JDict [("message", JStr ("History cleared for session " +:+ session_id))],
       <[session_id := clear h]> store)
  | None => (JDict [("message", JStr "Session not found")], store)
  end.

Definition message_json (msg : Message) : Json :=
  JDict [("type", JStr (class_name (msg_class msg)));
         ("content", JStr (content msg))].

(** [GET /chat/{session_id}/history] *)
Definition get_history (session_id : string) (store : Store)
  : Json * Store :=
  match store !! session_id with
  | Some messages =>
      (JDict [("session_id", JStr session_id);
              ("message_count", JInt (length messages));
              ("messages", JList (message_json <$> messages))],
       store)
  | None =>
      (JDict [("message", JStr "Session not found"); ("messages", JList [])],
       store)
  end.

(** The entry of the history response for a message the caller sent. *)
Definition human_entry (m : string) : Json :=
  message_json {| msg_class := HumanMessage; content := m |}.

(** [m1] occurs as a human entry before [m2] in a list of entries. *)
Definition sent_in_order (m1 m2 : string) (entries : list Json) : Prop :=
  ∃ pre mid post,
    entries = pre ++ human_entry m1 :: mid ++ human_entry m2 :: post.

(** The ["messages"] list of a history response. *)
Definition response_messages (j : Json) : list Json :=
  match field "messages" j with
  | Some (JList l) => l
  | _ => []
  end.

(** Two posts to one session, then the history request. *)
Definition two_posts_then_history (chain : list Message → string → Result string)
    (sid m1 m2 : string) (store : Store) : Json :=
  let store1 := (chat chain {| session_id := sid; message := m1 |} store).2 in
  let store2 := (chat chain {| session_id := sid; message := m2 |} store1).2 in
  (get_history sid store2).1.

(** A model call that fails on one input and answers every other one. *)
Definition chain_failing_on (bad : string) (h : list Message) (input : string)
  : Result string :=
  if bool_decide (input = bad)
  then Raised (Exc "APIConnectionError" "Connection error.")
  else Returned "ok".

(** A model call that always answers. *)
Definition chain_echo (h : list Message) (input : string) : Result string :=
  Returned ("echo " +:+ input).

(** [GET /] *)
Definition root : Json :=
  JDict [("message", JStr "LangChain Chatbot API"); ("status", JStr "running")].

(** [GET /health] *)
Definition health : Json := JDict [("status", JStr "ok")].

(** The requests the application routes. *)
Inductive Request :=
| GET_root
| GET_health
| POST_chat (request : ChatRequest)
| DELETE_chat (session_id : string)
| GET_history (session_id : string).

(** What FastAPI sends for the result of [chat]: the response model as JSON,
    or its own error body had the handler raised. *)
Definition chat_json (r : Result ChatResponse) : Json :=
  match r with
  | Returned response => JDict [("reply", JStr (reply response))]
  | Raised _ => JDict [("detail", JStr "Internal Server Error")]
  end.

(** One request served on the store. *)
Definition handle (chain : list Message → string → Result string)
    (r : Request) (store : Store) : Json * Store :=
  match r with
  | GET_root => (root, store)
  | GET_health => (health, store)
  | POST_chat request =>
      (chat_json (chat chain request store).1, (chat chain request store).2)
  | DELETE_chat sid => clear_history sid store
  | GET_history sid => get_history sid store
  end.

(** Requests served one after the other. *)
Fixpoint serve (chain : list Message → string → Result string)
    (rs : list Request) (store : Store) : list Json * Store :=
  match rs with
  | [] => ([], store)
  | r :: rs' =>
      let served := handle chain r store in
      let rest := serve chain rs' served.2 in
      (served.1 :: rest.1, rest.2)
  end.

(** One exchange as it is stored: the human message, then the answer. *)
Definition turn (t : string * string) : list Message :=
  [ {| msg_class := HumanMessage; content := t.1 |};
    {| msg_class := AIMessage; content := t.2 |} ].

(** A history made of whole exchanges. *)
Definition paired (h : list Message) : Prop :=
  ∃ turns : list (string * string), h = concat (turn <$> turns).

(** The session a request names: the [session_id] of the body of a post, or
    of the path of the two [/chat/{session_id}] routes. *)
Definition target (r : Request) : option string :=
  match r with
  | GET_root | GET_health => None
  | POST_chat request => Some (session_id request)
  | DELETE_chat sid | GET_history sid => Some sid
  end.

End Chat.

(** ** Start-up of [main.py] and [db-agent.py] *)

Module Startup.

(** The process environment, [os.environ]. *)
Abbreviation Environ := (gmap string string).

(** [load_dotenv()]: variables of the [.env] file are added to the
    environment; a variable the environment already has is kept
    (python-dotenv's default, [override=False]). *)
Definition load_dotenv (dotenv : Environ) (environ : Environ) : Environ :=
  environ ∪ dotenv.

(** [os.getenv] *)
Definition getenv (environ : Environ) (name : string) : option string :=
  environ !! name.

(** Python's [not api_key] for [api_key : Optional[str]]. *)
Definition not_ (api_key : option string) : bool :=
  match api_key with
  | None => true
  | Some s => bool_decide (s = "")
  end.

(** What a module has created once its top level has run: the endpoints
    registered on [app] for [main.py], the agent for [db-agent.py]. *)
Record Service := { api_key_used : string; created : list string }.

(** The top level of [main.py], lines 17-148. *)
Definition main_py (dotenv environ : Environ) : Result Service :=
  let environ := load_dotenv dotenv environ in
  let api_key := getenv environ "OPENAI_API_KEY" in
  if not_ api_key
  then Raised (ValueError "OPENAI_API_KEY not found in environment variables")
  else Returned {| api_key_used := default "" api_key;
                   created := ["llm"; "prompt"; "chain"; "store";
                               "chain_with_history"; "app";
                               "GET /"; "GET /health"; "POST /chat";
                               "DELETE /chat/{session_id}";
                               "GET /chat/{session_id}/history"] |}.

(** The top level of [db-agent.py], lines 18-80, up to the creation of the
    agent (the database connection it opens on the way is outside the
    model). *)
Definition db_agent_py (dotenv environ : Environ) : Result Service :=
  let environ := load_dotenv dotenv environ in
  let api_key := getenv environ "OPENAI_API_KEY" in
  if not_ api_key
  then Raised (ValueError "OPENAI_API_KEY not found in environment variables")
  else Returned {| api_key_used := default "" api_key;
                   created := ["llm"; "db"; "toolkit"; "tools"; "agent"] |}.

(** The credential is missing: the variable is absent or empty when the
    module reads it. *)
Definition credential_missing (dotenv environ : Environ) : Prop :=
  getenv (load_dotenv dotenv environ) "OPENAI_API_KEY" = None ∨
  getenv (load_dotenv dotenv environ) "OPENAI_API_KEY" = Some "".

Definition fails_fast (r : Result Service) : Prop :=
  r = Raised (ValueError "OPENAI_API_KEY not found in environment variables").

(** [getAPIKey()] of [db-agent.py], reading the module's [api_key]. *)
Definition getAPIKey (api_key : option string) : Result string :=
  if not_ api_key
  then Raised (ValueError "API key is missing")
  else Returned (default "" api_key).

End Startup.

(** ** database.py: schema, session and seed generator *)

Module Seed.

(** The tables of [Base.metadata], by [__tablename__]. *)
Inductive Table :=
| tbl_companies | tbl_company_revenue | tbl_clients | tbl_project_categories
| tbl_projects | tbl_project_details | tbl_employees | tbl_team_members
| tbl_project_goals | tbl_kpi_catalog | tbl_milestones | tbl_defects
| tbl_issues | tbl_time_entry | tbl_project_cost | tbl_employee_exit
| tbl_hiring_pipeline | tbl_training_attendance.

#[global] Instance Table_eq_dec : EqDecision Table.
Proof. solve_decision. Defined.

(** A [datetime.date], as a day number. *)
Definition date := Z.

(** The ORM classes.  A row holds the columns the generator sets; the
    autoincrement primary key is kept beside the row in its table.  [Float]
    columns filled with [round(random.uniform(a, b), 2)] are held in
    hundredths. *)
Inductive Row :=
| Company (company_name industry hq_location website : string)
| CompanyRevenue (company_id : nat) (revenue_amount : Z) (revenue_date : date)
| Client (company_id : nat) (name industry country contact_email : string)
| ProjectCategory (name description : string)
| Project (project_code name : string) (client_id company_id category_id : nat)
    (start_date planned_end_date actual_end_date : date) (status : string)
    (budget : Z)
| ProjectDetail (project_id : nat) (technology_stack methodology : string)
| Employee (company_id : nat) (first_name last_name role department : string)
| TeamMember (project_id employee_id : nat) (role_in_project : string)
    (allocation_percentage : Z)
| ProjectGoal (project_id : nat) (title description status : string)
| KPICatalog (kpi_name category description sql_formula data_sources
    calculation_type unit : string) (target_value : option Z) (role : string)
| Milestone (project_id : nat) (name : string) (planned_date actual_date : date)
    (status : string)
| Defect (project_id : nat) (severity : string) (reported_date : date)
    (reported_by environment status : string) (closed_date : option date)
| Issue (project_id : nat) (issue_type priority : string) (reported_date : date)
    (resolved_date : option date) (reported_by_client status : string)
| TimeEntry (project_id employee_id : nat) (date_ : date) (hours : Z)
    (is_billable : Z)
| ProjectCost (project_id : nat) (cost_type : string)
    (planned_cost actual_cost : Z) (recorded_date : date)
| EmployeeExit (employee_id : nat) (exit_date : date) (reason : string)
    (is_regretted : Z)
| HiringPipeline (position department : string) (opened_date : date)
    (closed_date : option date) (applicant_name : string)
    (offer_made_date offer_accepted_date : option date) (status : string)
| TrainingAttendance (employee_id : nat) (course_name : string)
    (assigned_date : date) (completed_date : option date).

(** [__tablename__] of the row's class. *)
Definition table_of (r : Row) : Table :=
  match r with
  | Company _ _ _ _ => tbl_companies
  | CompanyRevenue _ _ _ => tbl_company_revenue
  | Client _ _ _ _ _ => tbl_clients
  | ProjectCategory _ _ => tbl_project_categories
  | Project _ _ _ _ _ _ _ _ _ _ => tbl_projects
  | ProjectDetail _ _ _ => tbl_project_details
  | Employee _ _ _ _ _ => tbl_employees
  | TeamMember _ _ _ _ => tbl_team_members
  | ProjectGoal _ _ _ _ => tbl_project_goals
  | KPICatalog _ _ _ _ _ _ _ _ _ => tbl_kpi_catalog
  | Milestone _ _ _ _ _ => tbl_milestones
  | Defect _ _ _ _ _ _ _ => tbl_defects
  | Issue _ _ _ _ _ _ _ => tbl_issues
  | TimeEntry _ _ _ _ _ => tbl_time_entry
  | ProjectCost _ _ _ _ _ => tbl_project_cost
  | EmployeeExit _ _ _ _ => tbl_employee_exit
  | HiringPipeline _ _ _ _ _ _ _ _ => tbl_hiring_pipeline
  | TrainingAttendance _ _ _ _ => tbl_training_attendance
  end.

(** The [ForeignKey] columns of a row: the parent table and the key held. *)
Definition foreign_keys (r : Row) : list (Table * nat) :=
  match r with
  | CompanyRevenue company_id _ _ => [(tbl_companies, company_id)]
  | Client company_id _ _ _ _ => [(tbl_companies, company_id)]
  | Project _ _ client_id company_id category_id _ _ _ _ _ =>
      [(tbl_clients, client_id); (tbl_companies, company_id);
       (tbl_project_categories, category_id)]
  | ProjectDetail project_id _ _ => [(tbl_projects, project_id)]
  | Employee company_id _ _ _ _ => [(tbl_companies, company_id)]
  | TeamMember project_id employee_id _ _ =>
      [(tbl_projects, project_id); (tbl_employees, employee_id)]
  | ProjectGoal project_id _ _ _ => [(tbl_projects, project_id)]
  | Milestone project_id _ _ _ _ => [(tbl_projects, project_id)]
  | Defect project_id _ _ _ _ _ _ => [(tbl_projects, project_id)]
  | Issue project_id _ _ _ _ _ _ => [(tbl_projects, project_id)]
  | TimeEntry project_id employee_id _ _ _ =>
      [(tbl_projects, project_id); (tbl_employees, employee_id)]
  | ProjectCost project_id _ _ _ _ => [(tbl_projects, project_id)]
  | EmployeeExit employee_id _ _ _ => [(tbl_employees, employee_id)]
  | TrainingAttendance employee_id _ _ _ => [(tbl_employees, employee_id)]
  | Company _ _ _ _ | ProjectCategory _ _ | KPICatalog _ _ _ _ _ _ _ _ _
  | HiringPipeline _ _ _ _ _ _ _ _ => []
  end.

(** [p.project_code], [p.name] and [p.start_date] of a [Project] object. *)
Definition project_code_of (r : Row) : option string :=
  match r with
  | Project project_code _ _ _ _ _ _ _ _ _ => Some project_code
  | _ => None
  end.

Definition name_of (r : Row) : string :=
  match r with
  | Project _ name _ _ _ _ _ _ _ _ => name
  | _ => ""
  end.

Definition start_date_of (r : Row) : date :=
  match r with
  | Project _ _ _ _ _ start_date _ _ _ _ => start_date
  | _ => 0%Z
  end.

(** A table: its rows with their primary keys, in insertion order, and the
    next autoincrement value. *)
Record TableData := { table_rows : list (nat * Row); auto_increment : nat }.

Definition empty_table : TableData :=
  {| table_rows := []; auto_increment := 1 |}.

(** The database: each table of the metadata exists or not. *)
Abbreviation Database := (Table → option TableData).

(** [Base.metadata.drop_all(engine)] *)
Definition drop_all (d : Database) : Database := λ _, None.

(** [Base.metadata.create_all(engine)]: creates the tables that are missing. *)
Definition create_all (d : Database) : Database :=
  λ t, match d t with
       | Some td => Some td
       | None => Some empty_table
       end.

Definition recreate_schema (d : Database) : Database :=
  create_all (drop_all d).

(** Insert one row: the table must exist; the row takes the next key. *)
Definition insert_row (d : Database) (r : Row) : option (Database * nat) :=
  td ← d (table_of r);
  let k := auto_increment td in
  Some (<[table_of r :=
            Some {| table_rows := table_rows td ++ [(k, r)];
                    auto_increment := S k |}]> d, k).

(** Flush rows in the order they were added; the result pairs each object
    with the primary key it received. *)
Fixpoint flush (d : Database) (rs : list Row)
  : option (Database * list (nat * Row)) :=
  match rs with
  | [] => Some (d, [])
  | r :: rs' =>
      '(d1, k) ← insert_row d r;
      '(d2, out) ← flush d1 rs';
      Some (d2, (k, r) :: out)
  end.

(** The state a run threads: the database, the objects added to the session
    and not yet flushed, and how far the random stream has been read. *)
Record State := { database : Database; pending : list Row; position : nat }.

(** A computation that reads and writes the state and may raise. *)
Definition M (A : Type) : Type := State → Result A * State.

Definition ret {A} (a : A) : M A := λ s, (Returned a, s).

Definition bind {A B} (m : M A) (k : A → M B) : M B := λ s,
  match m s with
  | (Returned a, s') => k a s'
  | (Raised e, s') => (Raised e, s')
  end.

Definition raise {A} (e : Exception) : M A := λ s, (Raised e, s).

Declare Scope M_scope.
Delimit Scope M_scope with M.
Notation "x ← y ; z" := (bind y (λ x, z))
  (at level 20, y at level 100, z at level 200, only parsing) : M_scope.
Notation "' x ← y ; z" := (bind y (λ x, z))
  (at level 20, x pattern, y at level 100, z at level 200, only parsing)
  : M_scope.
Notation "x ;; z" := (bind x (λ _, z))
  (at level 100, z at level 200, only parsing, right associativity) : M_scope.
Local Open Scope M_scope.

(** [for x in l: body(x)] *)
Fixpoint for_each {A} (l : list A) (body : A → M unit) : M unit :=
  match l with
  | [] => ret ()
  | x :: l' => body x ;; for_each l' body
  end.

(** A loop that appends what each iteration builds to a list. *)
Fixpoint collect {A B} (l : list A) (body : A → M (list B)) : M (list B) :=
  match l with
  | [] => ret []
  | x :: l' => ys ← body x; zs ← collect l' body; ret (ys ++ zs)
  end.

(** [range(n)] *)
Definition range (n : nat) : list nat := seq 0 n.

(** [enumerate(l)] *)
Definition enumerate {A} (l : list A) : list (nat * A) :=
  zip (seq 0 (length l)) l.

(** [session.add(obj)] *)
Definition session_add (r : Row) : M unit := λ s,
  (Returned (),
   {| database := database s; pending := pending s ++ [r];
      position := position s |}).

(** [session.add_all(objs)] *)
Definition session_add_all (rs : list Row) : M unit := λ s,
  (Returned (),
   {| database := database s; pending := pending s ++ rs;
      position := position s |}).

(** [session.commit()]: one transaction flushes the pending objects; it
    returns them with their keys (the objects whose [.xxx_id] the generator
    reads afterwards).  A failing flush is rolled back.  The engine's own
    checks of [unique] and [ForeignKey] are not part of the model: the
    theorems below show the generator never offends them. *)
Definition session_commit : M (list (nat * Row)) := λ s,
  match flush (database s) (pending s) with
  | Some (d, objs) =>
      (Returned objs,
       {| database := d; pending := []; position := position s |})
  | None =>
      (Raised (Exc "ProgrammingError" "Table doesn't exist"),
       {| database := database s; pending := []; position := position s |})
  end.

Section Generator.

(** The raw values behind [random]: the [n]-th value read. *)
Variable rng : nat → nat.
(** The text a [Faker] provider returns for a raw value. *)
Variable faker : string → nat → string.
(** [date.today()] *)
Variable today : date.

Definition draw : M nat := λ s,
  (Returned (rng (position s)),
   {| database := database s; pending := pending s;
      position := S (position s) |}).

(** [fake.company()], [fake.bs()], ... *)
Definition fake (provider : string) : M string :=
  n ← draw; ret (faker provider n).

(** [random.randint(a, b)] for [a <= b]. *)
Definition randint (a b : Z) : M Z :=
  n ← draw; ret (a + Z.of_nat n `mod` (b - a + 1))%Z.

(** [round(random.uniform(a, b), 2)], in hundredths. *)
Definition uniform_round2 (a b : Z) : M Z :=
  randint (100 * a) (100 * b).

(** [random.random() > p], with [p] in hundredths. *)
Definition random_gt (p : nat) : M bool :=
  n ← draw; ret (bool_decide (p < n `mod` 100)).

(** [random.choice(seq)] *)
Definition choice {A} (l : list A) : M A :=
  match l with
  | [] => raise (IndexError "Cannot choose from an empty sequence")
  | _ =>
      n ← draw;
      match l !! (n `mod` length l) with
      | Some x => ret x
      | None => raise (IndexError "list index out of range")
      end
  end.

Fixpoint sample_from {A} (k : nat) (l : list A) : M (list A) :=
  match k with
  | 0 => ret []
  | S k' =>
      n ← draw;
      let i := n `mod` length l in
      match l !! i with
      | Some x => xs ← sample_from k' (delete i l); ret (x :: xs)
      | None => ret []
      end
  end.

(** [random.sample(population, k)]: [k] elements chosen without
    replacement. *)
Definition sample {A} (l : list A) (k : nat) : M (list A) :=
  if decide (length l < k)
  then raise (ValueError "Sample larger than population or is negative")
  else sample_from k l.

(** [l[i % len(l)]] *)
Definition index_mod_len {A} (l : list A) (i : nat) : M A :=
  match length l with
  | 0 => raise (ZeroDivisionError "integer modulo by zero")
  | n =>
      match l !! (i `mod` n) with
      | Some x => ret x
      | None => raise (IndexError "list index out of range")
      end
  end.

(** [X if random.random() > p else None]: the test is evaluated first. *)
Definition if_random_gt {A} (p : nat) (x : M A) : M (option A) :=
  b ← random_gt p;
  if b : bool then a ← x; ret (Some a) else ret None.

(** [f"PRJ{i+1000}"] *)
Definition project_code (i : nat) : string := "PRJ" +:+ pretty (i + 1000).

(** [generate_sample_data(session, ...)] *)
Definition generate_sample_data
    (num_companies num_clients_per_company num_projects num_employees
     num_revenue_months num_time_entries : nat) : M unit :=
  (* ----- Companies ----- *)
  companies ← collect (range num_companies) (λ _,
    company_name ← fake "company";
    industry ← fake "bs";
    hq_location ← fake "city";
    website ← fake "url";
    ret [Company company_name industry hq_location website]);
  session_add_all companies;;
  companies ← session_commit;
  (* ----- Company Revenue ----- *)
  for_each companies (λ c,
    for_each (range num_revenue_months) (λ m,
      revenue_amount ← randint 50000 400000;
      session_add
        (CompanyRevenue c.1 revenue_amount (today - Z.of_nat m * 30)%Z)));;
  _ ← session_commit;
  (* ----- Clients ----- *)
  clients ← collect companies (λ c,
    collect (range num_clients_per_company) (λ _,
      name ← fake "company";
      industry ← choice ["Retail"; "Finance"; "Healthcare"];
      country ← fake "country";
      contact_email ← fake "email";
      ret [Client c.1 name industry country contact_email]));
  session_add_all clients;;
  clients ← session_commit;
  (* ----- Project Categories ----- *)
  let category_list := ["Web"; "Mobile"; "AI/ML"; "Cloud"] in
  session_add_all
    ((λ ct, ProjectCategory ct (ct +:+ " projects")) <$> category_list);;
  categories ← session_commit;
  (* ----- Projects ----- *)
  projects ← collect (range num_projects) (λ i,
    cli ← choice clients;
    cat ← choice categories;
    comp ← choice companies;
    d ← randint 30 500;
    let start := (today - d)%Z in
    d ← randint 50 150;
    let planned_end := (start + d)%Z in
    d ← randint (-10) 40;
    status ← choice ["Completed"; "In Progress"];
    budget ← randint 50000 500000;
    ret [Project (project_code i) ("Project_" +:+ pretty i)
            cli.1 comp.1 cat.1 start planned_end (planned_end + d)%Z
            status budget]);
  session_add_all projects;;
  projects ← session_commit;
  (* ----- Project Details ----- *)
  for_each projects (λ p,
    technology_stack ← choice ["Python"; "Node"; "Java"; "Go"];
    methodology ← choice ["Agile"; "Scrum"; "Waterfall"];
    session_add (ProjectDetail p.1 technology_stack methodology));;
  _ ← session_commit;
  (* ----- Employees ----- *)
  employees ← collect (range num_employees) (λ _,
    comp ← choice companies;
    first_name ← fake "first_name";
    last_name ← fake "last_name";
    role ← choice ["Developer"; "QA"; "Manager"];
    department ← choice ["IT"; "HR"; "Finance"];
    ret [Employee comp.1 first_name last_name role department]);
  session_add_all employees;;
  employees ← session_commit;
  (* ----- Team Members ----- *)
  for_each projects (λ p,
    sample_team ← sample employees (5 `min` length employees);
    for_each sample_team (λ emp,
      role_in_project ← choice ["Dev"; "Lead"; "QA"];
      allocation_percentage ← randint 20 100;
      session_add
        (TeamMember p.1 emp.1 role_in_project allocation_percentage)));;
  _ ← session_commit;
  (* ----- Project Goals ----- *)
  for_each projects (λ p,
    n ← randint 2 5;
    for_each (range (Z.to_nat n)) (λ _,
      title ← fake "bs";
      description ← fake "sentence";
      status ← choice ["Pending"; "Completed"];
      session_add (ProjectGoal p.1 title description status)));;
  _ ← session_commit;
  (* ----- Milestones ----- *)
  for_each projects (λ p,
    for_each (range 2) (λ m_idx,
      let planned := (start_date_of p.2 + 20 * (Z.of_nat m_idx + 1))%Z in
      actual_offset ← randint (-5) 10;
      status ← choice ["Pending"; "Completed"; "Delayed"];
      session_add
        (Milestone p.1
           (name_of p.2 +:+ " - Milestone " +:+ pretty (m_idx + 1))
           planned (planned + actual_offset)%Z status)));;
  _ ← session_commit;
  (* ----- Defects ----- *)
  for_each projects (λ p,
    n ← randint 0 3;
    for_each (range (Z.to_nat n)) (λ _,
      severity ← choice ["Low"; "Medium"; "High"; "Critical"];
      d ← randint 1 40;
      reported_by ← fake "name";
      environment ← choice ["QA"; "UAT"; "PROD"];
      status ← choice ["Open"; "In Progress"; "Closed"];
      closed_date ← if_random_gt 50 (ret today);
      session_add
        (Defect p.1 severity (start_date_of p.2 + d)%Z reported_by environment
           status closed_date)));;
  _ ← session_commit;
  (* ----- Issues ----- *)
  for_each projects (λ p,
    n ← randint 0 2;
    for_each (range (Z.to_nat n)) (λ _,
      issue_type ← choice ["Blocker"; "Task"; "Bug"; "Query"];
      priority ← choice ["Low"; "Medium"; "High"];
      d ← randint 1 40;
      resolved_date ← if_random_gt 40
        (d ← randint 20 80; ret (start_date_of p.2 + d)%Z);
      reported_by_client ← fake "company";
      status ← choice ["Open"; "Resolved"; "Monitoring"];
      session_add
        (Issue p.1 issue_type priority (start_date_of p.2 + d)%Z resolved_date
           reported_by_client status)));;
  _ ← session_commit;
  (* ----- Time Entries ----- *)
  for_each (range num_time_entries) (λ i,
    proj ← index_mod_len projects i;
    emp ← index_mod_len employees i;
    d ← randint 0 90;
    hours ← uniform_round2 1 8;
    billable ← random_gt 20;
    session_add
      (TimeEntry proj.1 emp.1 (start_date_of proj.2 + d)%Z hours
         (if billable : bool then 1 else 0));;
    if decide (i `mod` 500 = 0 ∧ 0 < i)
    then _ ← session_commit; ret ()
    else ret ());;
  _ ← session_commit;
  (* ----- Project Cost ----- *)
  for_each projects (λ p,
    n ← randint 1 3;
    for_each (range (Z.to_nat n)) (λ _,
      cost_type ← choice ["labor"; "infra"; "misc"];
      planned_cost ← uniform_round2 1000 50000;
      actual_cost ← uniform_round2 500 60000;
      d ← randint 0 120;
      session_add
        (ProjectCost p.1 cost_type planned_cost actual_cost
           (start_date_of p.2 + d)%Z)));;
  _ ← session_commit;
  (* ----- Employee Exits ----- *)
  (* [int(num_employees * 0.05)]: the double nearest to 0.05 is
     (2^56 + 4) / (20 * 2^56), so for every count below 2^53 the product
     rounds to a double whose integer part is [num_employees / 20]. *)
  let exit_count := 1 `max` (num_employees / 20) in
  exit_sample ← sample employees exit_count;
  for_each exit_sample (λ emp,
    d ← randint 1 400;
    reason ←
      choice ["Personal"; "Better Offer"; "Resignation"; "Termination"];
    regretted ← random_gt 60;
    session_add
      (EmployeeExit emp.1 (today - d)%Z reason
         (if regretted : bool then 1 else 0)));;
  _ ← session_commit;
  (* ----- Hiring Pipeline ----- *)
  for_each (range 12) (λ _,
    position ← choice ["Software Engineer"; "QA Engineer";
                       "Project Manager"; "Data Analyst"];
    department ← choice ["IT"; "HR"; "Finance"; "Product"];
    d ← randint 1 200;
    closed_date ← if_random_gt 50 (d ← randint 0 100; ret (today - d)%Z);
    applicant_name ← fake "name";
    offer_made_date ←
      if_random_gt 60 (d ← randint 0 60; ret (today - d)%Z);
    offer_accepted_date ←
      if_random_gt 70 (d ← randint 0 30; ret (today - d)%Z);
    status ← choice ["open"; "closed"; "hired"];
    session_add
      (HiringPipeline position department (today - d)%Z closed_date
         applicant_name offer_made_date offer_accepted_date status));;
  _ ← session_commit;
  (* ----- Training Attendance ----- *)
  for_each (enumerate employees) (λ '(idx, emp),
    if decide (idx `mod` 3 = 0)
    then
      course_name ← choice ["AWS Basics"; "Python Advanced";
                            "Agile Foundations"; "Security Awareness"];
      d ← randint 10 300;
      completed_date ←
        if_random_gt 40 (d ← randint 1 50; ret (today - d)%Z);
      session_add
        (TrainingAttendance emp.1 course_name (today - d)%Z completed_date)
    else ret ());;
  _ ← session_commit;
  ret ().

(** The [kpis] list of [insert_kpi_catalog]: name, category, description,
    formula, data sources, calculation type, unit, target and role. *)
Definition kpis
  : list (string * string * string * string * string * string * string
          * option Z * string) :=
  [
    ("Total Revenue",
     "Company",
     "Total revenue for a given year",
     "SELECT SUM(revenue_amount) FROM company_revenue WHERE YEAR(revenue_date) = :year",
     "company_revenue",
     "sum",
     "USD",
     None,
     "HR Manager");
    ("Revenue Growth Rate",
     "Company",
     "Year over year revenue growth",
     "
         SELECT 
           ((this_year.total - last_year.total) / last_year.total) * 100 
         FROM
           (SELECT SUM(revenue_amount) total FROM company_revenue WHERE YEAR(revenue_date)=:year) this_year,
           (SELECT SUM(revenue_amount) total FROM company_revenue WHERE YEAR(revenue_date)=:year-1) last_year
         ",
     "company_revenue",
     "percentage",
     "%",
     None,
     "HR Manager");
    ("Revenue per Client",
     "Company",
     "Revenue divided by total active clients",
     "
         SELECT SUM(r.revenue_amount) / COUNT(DISTINCT c.client_id)
         FROM company_revenue r 
         JOIN clients c ON c.company_id = r.company_id
         ",
     "company_revenue, clients",
     "ratio",
     "USD",
     None,
     "HR Manager");
    ("On-time Delivery Rate",
     "Project",
     "Percentage of projects delivered on time",
     "
         SELECT 
           (SUM(CASE WHEN actual_end_date <= planned_end_date THEN 1 ELSE 0 END) 
            / COUNT(*)) * 100 
         FROM projects
         ",
     "projects",
     "percentage",
     "%",
     (Some 95),
     "Project Manager");
    ("Goal Completion Rate",
     "Project",
     "Percentage of goals completed",
     "
         SELECT 
           (SUM(CASE WHEN status='Completed' THEN 1 END) / COUNT(*)) * 100 
         FROM project_goals
         ",
     "project_goals",
     "percentage",
     "%",
     None,
     "Project Manager");
    ("Average Time per Project (hrs)",
     "Project",
     "Average billable hours per project over period",
     "
         SELECT AVG(hours) FROM time_entry WHERE project_id = :project_id AND is_billable = 1
         ",
     "time_entry",
     "average",
     "hours",
     None,
     "Delivery Manager");
    ("Defects per Project",
     "Project",
     "Average number of defects reported per project",
     "
         SELECT project_id, COUNT(*) AS defect_count FROM defects GROUP BY project_id
         ",
     "defects",
     "count",
     "count",
     None,
     "Delivery Manager")
  ]%Z.

(** [insert_kpi_catalog(session)] *)
Definition insert_kpi_catalog : M unit :=
  for_each kpis (λ '(k0, k1, k2, k3, k4, k5, k6, k7, k8),
    session_add
      (KPICatalog k0 k1 k2 k3 k4 k5 k6 k7 k8));;
  _ ← session_commit;
  ret ().

(** What a run of the seed generator executes on its session: the two calls
    of [main], for any row counts. *)
Definition seed
    (num_companies num_clients_per_company num_projects num_employees
     num_revenue_months num_time_entries : nat) : M unit :=
  generate_sample_data num_companies num_clients_per_company num_projects
    num_employees num_revenue_months num_time_entries;;
  insert_kpi_catalog.

(** [Session()]: a new session has nothing pending; a run reads the random
    stream from its start. *)
Definition new_session (d : Database) : State :=
  {| database := d; pending := []; position := 0 |}.

(** [main()], run on a database: how it ended and the database it left.
    [generate_sample_data(session)] takes the default counts. *)
Definition main (d : Database) : Result unit * Database :=
  let d0 := recreate_schema d in
  let run := seed 50 100 100 1500 1000 1000 (new_session d0) in
  (run.1, database run.2).

End Generator.

(** *** Schema constraints as predicates on a database *)

(** The rows of a table with their keys (none when the table is missing). *)
Definition table_contents (d : Database) (t : Table) : list (nat * Row) :=
  match d t with
  | Some td => table_rows td
  | None => []
  end.

(** Table [t] has a row whose primary key is [k]. *)
Definition has_pk (d : Database) (ref : Table * nat) : Prop :=
  ref.2 ∈ (table_contents d ref.1).*1.

(** Every foreign key of [r] resolves in [d]. *)
Definition fk_ok (d : Database) (r : Row) : Prop :=
  Forall (has_pk d) (foreign_keys r).

(** Referential integrity: every foreign key of every row of every table
    refers to an existing row of the parent table. *)
Definition fk_integrity (d : Database) : Prop :=
  ∀ t o, o ∈ table_contents d t → fk_ok d o.2.

(** The [project_code] column of a list of rows. *)
Definition codes_of (rs : list Row) : list string := omap project_code_of rs.

(** The [project_code] values stored in the [projects] table. *)
Definition project_codes (d : Database) : list string :=
  codes_of (table_contents d tbl_projects).*2.

(** [Column(String(50), unique=True)] on [Project.project_code]. *)
Definition unique_project_code (d : Database) : Prop :=
  NoDup (project_codes d).

(** *** Assertions for reasoning about a run *)

(** An object of the session that has been flushed: its key and its row. *)
Definition persisted (d : Database) (o : nat * Row) : Prop :=
  has_pk d (table_of o.2, o.1).

(** The key [ref] is that of one of the flushed objects [L]. *)
Definition known (L : list (nat * Row)) (ref : Table * nat) : Prop :=
  ∃ o, o ∈ L ∧ table_of o.2 = ref.1 ∧ o.1 = ref.2.

(** The row belongs to table [T]. *)
Definition at_table (T : Table) (r : Row) : Prop := table_of r = T.

(** The state of a run: the database is consistent, the pending rows refer
    to existing rows and satisfy [φ], the objects [L] are in the database, and
    the project codes stored or pending are the duplicate-free list [cs]. *)
Definition inv (L : list (nat * Row)) (φ : Row → Prop) (cs : list string)
    (d : Database) (p : list Row) : Prop :=
  fk_integrity d ∧
  Forall (λ r, fk_ok d r ∧ φ r) p ∧
  Forall (persisted d) L ∧
  project_codes d ++ codes_of p = cs ∧
  NoDup cs.

(** What holds of the database however a run ends. *)
Definition consistent (d : Database) : Prop :=
  fk_integrity d ∧ unique_project_code d.

(** From a state satisfying [inv L φ cs], [m] either returns [a] with [R a]
    in a state satisfying [inv (L' a) φ' (cs' a)], or raises and leaves a
    consistent database. *)
Definition triple {A} (L : list (nat * Row)) (φ : Row → Prop)
    (cs : list string) (m : M A) (R : A → Prop)
    (L' : A → list (nat * Row)) (φ' : Row → Prop) (cs' : A → list string)
  : Prop :=
  ∀ s, inv L φ cs (database s) (pending s) →
    match m s with
    | (Returned a, s') =>
        R a ∧ inv (L' a) φ' (cs' a) (database s') (pending s')
    | (Raised _, s') => consistent (database s')
    end.

(** [m] keeps the assertion and returns a value satisfying [R]. *)
Definition keeps {A} (L : list (nat * Row)) (φ : Row → Prop)
    (cs : list string) (m : M A) (R : A → Prop) : Prop :=
  triple L φ cs m R (λ _, L) φ (λ _, cs).

(** From a state satisfying the assertion, [m] either returns in a state
    satisfying [inv] for some objects and for codes satisfying [C], with
    [φ'] on the pending rows, or raises and leaves a consistent database. *)
Definition ends {A} (L : list (nat * Row)) (φ : Row → Prop)
    (cs : list string) (m : M A) (φ' : Row → Prop)
    (C : list string → Prop) : Prop :=
  ∀ s, inv L φ cs (database s) (pending s) →
    match m s with
    | (Returned a, s') =>
        ∃ L' cs', C cs' ∧ inv L' φ' cs' (database s') (pending s')
    | (Raised _, s') => consistent (database s')
    end.

(** *** Outcomes and sizes of a run *)

(** From a state satisfying [P], [m] returns [a] in a state satisfying
    [Q a], or raises [e] with [E e] of the database it leaves. *)
Definition hoare {A} (P : Database → list Row → Prop) (m : M A)
    (Q : A → Database → list Row → Prop) (E : Exception → Database → Prop)
  : Prop :=
  ∀ s, P (database s) (pending s) →
    match m s with
    | (Returned a, s') => Q a (database s') (pending s')
    | (Raised e, s') => E e (database s')
    end.

(** [m] leaves the database and the pending rows alone; it returns a value
    satisfying [R] or raises an exception satisfying [X]. *)
Definition pure_op {A} (m : M A) (R : A → Prop) (X : Exception → Prop)
  : Prop :=
  ∀ s,
    match m s with
    | (Returned a, s') =>
        R a ∧ database s' = database s ∧ pending s' = pending s
    | (Raised e, s') =>
        X e ∧ database s' = database s ∧ pending s' = pending s
    end.

(** The number of rows of a table. *)
Definition size (d : Database) (t : Table) : nat :=
  length (table_contents d t).

(** [f] with [n] added at table [T]. *)
Definition bump (T : Table) (n : nat) (f : Table → nat) : Table → nat :=
  λ t, if decide (t = T) then f t + n else f t.

(** Every table exists, the pending rows all belong to [T], and the rows of
    each table, counting the pending ones for [T], number between [flo] and
    [fhi], plus [lo] to [hi] more for [T]. *)
Definition sized (T : Table) (lo hi : nat) (flo fhi : Table → nat)
    (d : Database) (p : list Row) : Prop :=
  (∀ t, is_Some (d t)) ∧
  Forall (at_table T) p ∧
  ∀ t, (bump T lo flo t
        ≤ size d t + (if decide (t = T) then length p else 0)
        ≤ bump T hi fhi t)%nat.

(** Every table exists, the pending rows are exactly [rs], and the rows of
    each table number between [flo] and [fhi]. *)
Definition holding (rs : list Row) (flo fhi : Table → nat)
    (d : Database) (p : list Row) : Prop :=
  p = rs ∧ (∀ t, is_Some (d t)) ∧ ∀ t, (flo t ≤ size d t ≤ fhi t)%nat.

(** How a run of the generator on a rebuilt schema ends, read off the row
    counts: the class of the exception it raises, or [None] when it
    returns. *)
Definition expected_failure (n1 n2 n3 n4 n6 : nat) : option string :=
  if decide (0 < n3 ∧ (n1 = 0 ∨ n2 = 0)) then Some "IndexError"
  else if decide (0 < n4 ∧ n1 = 0) then Some "IndexError"
  else if decide (0 < n6 ∧ (n3 = 0 ∨ n4 = 0)) then Some "ZeroDivisionError"
  else if decide (n4 = 0) then Some "ValueError"
  else None.


(** The exception [e] is the one the row counts call for. *)
Definition raises_as (n1 n2 n3 n4 n6 : nat) (e : Exception) : Prop :=
  Some (exc_class e) = expected_failure n1 n2 n3 n4 n6.

(** The fewest rows a run that returns leaves in each table. *)
Definition min_rows (n1 n2 n3 n4 n5 n6 : nat) (t : Table) : nat :=
  match t with
  | tbl_companies => n1
  | tbl_company_revenue => n5 * n1
  | tbl_clients => n2 * n1
  | tbl_project_categories => 4
  | tbl_projects => n3
  | tbl_project_details => n3
  | tbl_employees => n4
  | tbl_team_members => (5 `min` n4) * n3
  | tbl_project_goals => 2 * n3
  | tbl_kpi_catalog => 7
  | tbl_milestones => 2 * n3
  | tbl_defects => 0
  | tbl_issues => 0
  | tbl_time_entry => n6
  | tbl_project_cost => n3
  | tbl_employee_exit => 1 `max` (n4 / 20)
  | tbl_hiring_pipeline => 12
  | tbl_training_attendance => (n4 + 2) / 3
  end.

(** The most rows: the tables filled with a random number of rows per
    project have room; the others are exact. *)
Definition max_rows (n1 n2 n3 n4 n5 n6 : nat) (t : Table) : nat :=
  match t with
  | tbl_project_goals => 5 * n3
  | tbl_defects => 3 * n3
  | tbl_issues => 2 * n3
  | tbl_project_cost => 3 * n3
  | _ => min_rows n1 n2 n3 n4 n5 n6 t
  end.

(** *** The values the generator draws *)

(** The row's drawn columns lie in the ranges and enumerations its stage of
    [generate_sample_data] draws them from ([today] is [date.today()]). *)
Definition valid_row (today : date) (r : Row) : Prop :=
  match r with
  | Company _ _ _ _ => True
  | CompanyRevenue _ revenue_amount revenue_date =>
      (50000 ≤ revenue_amount ≤ 400000)%Z ∧ (revenue_date ≤ today)%Z
  | Client _ _ industry _ _ => industry ∈ ["Retail"; "Finance"; "Healthcare"]
  | ProjectCategory name description =>
      name ∈ ["Web"; "Mobile"; "AI/ML"; "Cloud"]
      ∧ description = name +:+ " projects"
  | Project _ _ _ _ _ start_date planned_end_date actual_end_date status
      budget =>
      (today - 500 ≤ start_date ≤ today - 30)%Z
      ∧ (start_date + 50 ≤ planned_end_date ≤ start_date + 150)%Z
      ∧ (planned_end_date - 10 ≤ actual_end_date ≤ planned_end_date + 40)%Z
      ∧ status ∈ ["Completed"; "In Progress"]
      ∧ (50000 ≤ budget ≤ 500000)%Z
  | ProjectDetail _ technology_stack methodology =>
      technology_stack ∈ ["Python"; "Node"; "Java"; "Go"]
      ∧ methodology ∈ ["Agile"; "Scrum"; "Waterfall"]
  | Employee _ _ _ role department =>
      role ∈ ["Developer"; "QA"; "Manager"]
      ∧ department ∈ ["IT"; "HR"; "Finance"]
  | TeamMember _ _ role_in_project allocation_percentage =>
      role_in_project ∈ ["Dev"; "Lead"; "QA"]
      ∧ (20 ≤ allocation_percentage ≤ 100)%Z
  | ProjectGoal _ _ _ status => status ∈ ["Pending"; "Completed"]
  | KPICatalog _ _ _ _ _ _ _ _ _ => True
  | Milestone _ _ planned_date actual_date status =>
      (planned_date - 5 ≤ actual_date ≤ planned_date + 10)%Z
      ∧ status ∈ ["Pending"; "Completed"; "Delayed"]
  | Defect _ severity _ _ environment status closed_date =>
      severity ∈ ["Low"; "Medium"; "High"; "Critical"]
      ∧ environment ∈ ["QA"; "UAT"; "PROD"]
      ∧ status ∈ ["Open"; "In Progress"; "Closed"]
      ∧ (closed_date = None ∨ closed_date = Some today)
  | Issue _ issue_type priority _ _ _ status =>
      issue_type ∈ ["Blocker"; "Task"; "Bug"; "Query"]
      ∧ priority ∈ ["Low"; "Medium"; "High"]
      ∧ status ∈ ["Open"; "Resolved"; "Monitoring"]
  | TimeEntry _ _ _ hours is_billable =>
      (100 ≤ hours ≤ 800)%Z ∧ (is_billable = 0 ∨ is_billable = 1)%Z
  | ProjectCost _ cost_type planned_cost actual_cost _ =>
      cost_type ∈ ["labor"; "infra"; "misc"]
      ∧ (100000 ≤ planned_cost ≤ 5000000)%Z
      ∧ (50000 ≤ actual_cost ≤ 6000000)%Z
  | EmployeeExit _ exit_date reason is_regretted =>
      (today - 400 ≤ exit_date ≤ today - 1)%Z
      ∧ reason ∈ ["Personal"; "Better Offer"; "Resignation"; "Termination"]
      ∧ (is_regretted = 0 ∨ is_regretted = 1)%Z
  | HiringPipeline position department opened_date closed_date _
      offer_made_date offer_accepted_date status =>
      position ∈ ["Software Engineer"; "QA Engineer"; "Project Manager";
                  "Data Analyst"]
      ∧ department ∈ ["IT"; "HR"; "Finance"; "Product"]
      ∧ (today - 200 ≤ opened_date ≤ today - 1)%Z
      ∧ (∀ c, closed_date = Some c → today - 100 ≤ c ≤ today - 0)%Z
      ∧ (∀ c, offer_made_date = Some c → today - 60 ≤ c ≤ today - 0)%Z
      ∧ (∀ c, offer_accepted_date = Some c → today - 30 ≤ c ≤ today - 0)%Z
      ∧ status ∈ ["open"; "closed"; "hired"]
  | TrainingAttendance _ course_name assigned_date completed_date =>
      course_name ∈ ["AWS Basics"; "Python Advanced"; "Agile Foundations";
                     "Security Awareness"]
      ∧ (today - 300 ≤ assigned_date ≤ today - 10)%Z
      ∧ (∀ c, completed_date = Some c → today - 50 ≤ c ≤ today - 1)%Z
  end.

(** Every stored row is valid. *)
Definition valid_db (today : date) (d : Database) : Prop :=
  ∀ t o, o ∈ table_contents d t → valid_row today o.2.

(** Every stored row and every pending row is valid. *)
Definition valid_state (today : date) (d : Database) (p : list Row) : Prop :=
  valid_db today d ∧ Forall (valid_row today) p.

(** The objects [insert_kpi_catalog] builds from its [kpis] list. *)
Definition kpi_rows : list Row :=
  (λ '(k0, k1, k2, k3, k4, k5, k6, k7, k8),
     KPICatalog k0 k1 k2 k3 k4 k5 k6 k7 k8) <$> kpis.

End Seed.

(** * Properties *)

(** ** The chat service *)

Section ChatFacts.
Import Chat.

Lemma chat_returns chain request (store : Store) :
  ∃ response, (chat chain request store).1 = Returned response.
Proof.
  unfold chat.
  destruct (chain_with_history_invoke _ _ _ _) as [[content|e] store'];
    eauto.
Qed.

(** C4: when evaluating the chain raises an exception [e], the handler of
    [POST /chat] returns (it does not raise) a [ChatResponse] whose [reply]
    is ["Error: "] followed by [str(e)]. *)
Theorem chat_error_reply chain request (store : Store) e :
  (chain_with_history_invoke chain (message request) (session_id request)
     store).1 = Raised e →
  (chat chain request store).1
  = Returned {| reply := "Error: " +:+ exc_str e |}.
Proof.
  unfold chat.
  destruct (chain_with_history_invoke _ _ _ _) as [[content|e'] store'];
    simpl; intros H; [discriminate | by inversion H].
Qed.

Lemma chat_error_reply_witness :
  (chat (chain_failing_on "hi") {| session_id := "s"; message := "hi" |} ∅).1
  = Returned {| reply := "Error: Connection error." |}.
Proof.
  apply (chat_error_reply (chain_failing_on "hi")
           {| session_id := "s"; message := "hi" |} ∅
           (Exc "APIConnectionError" "Connection error.")).
  reflexivity.
Defined.

(** C5: for a session id that is not in the store, the history request
    returns the message ["Session not found"] with an empty [messages] list;
    for a known session it returns [session_id], [message_count] and
    [messages]; and a response with those three keys is only returned for a
    known session. *)
Theorem get_history_unknown_session (store : Store) sid :
  (store !! sid = None →
     (get_history sid store).1
     = JDict [("message", JStr "Session not found"); ("messages", JList [])])
  ∧ (∀ h, store !! sid = Some h →
       (get_history sid store).1
       = JDict [("session_id", JStr sid);
                ("message_count", JInt (length h));
                ("messages", JList (message_json <$> h))])
  ∧ (keys (get_history sid store).1
       = ["session_id"; "message_count"; "messages"] →
     is_Some (store !! sid)).
Proof.
  unfold get_history. destruct (store !! sid) as [h|] eqn:E; simpl.
  - split; [done|]. split; [|eauto]. by intros h' [= <-].
  - split; [done|]. split; [done|]. discriminate.
Qed.

Lemma get_history_unknown_session_witness :
  (get_history "nobody" (∅ : Store)).1
  = JDict [("message", JStr "Session not found"); ("messages", JList [])].
Proof.
  apply (proj1 (get_history_unknown_session ∅ "nobody")). reflexivity.
Defined.

(** C6: for a session in the store, clearing its history and then
    requesting it returns an empty [messages] list and a [message_count] of
    zero, whatever the session held. *)
Theorem clear_then_history_empty (store : Store) sid h :
  store !! sid = Some h →
  (get_history sid (clear_history sid store).2).1
  = JDict [("session_id", JStr sid); ("message_count", JInt 0);
           ("messages", JList [])].
Proof.
  intros H. unfold clear_history, get_history. rewrite H. simpl.
  by rewrite lookup_insert_eq.
Qed.

Lemma clear_then_history_empty_witness :
  let h := [ {| msg_class := HumanMessage; content := "hello" |};
             {| msg_class := AIMessage; content := "hi" |} ] in
  (get_history "s" (clear_history "s" (<["s" := h]> ∅)).2).1
  = JDict [("session_id", JStr "s"); ("message_count", JInt 0);
           ("messages", JList [])].
Proof.
  intros h. apply (clear_then_history_empty (<["s" := h]> ∅) "s" h).
  reflexivity.
Defined.

(** C9: the history request leaves the store as it was, for every store and
    every session id; in particular no entry is created. *)
Theorem get_history_store_unchanged (store : Store) sid :
  (get_history sid store).2 = store.
Proof. unfold get_history. by destruct (store !! sid). Qed.

(** By contrast [get_session_history], which the chat endpoint goes
    through, creates the entry it does not find. *)
Lemma get_session_history_creates (store : Store) sid :
  store !! sid = None →
  (get_session_history sid store).2 !! sid = Some [].
Proof.
  intros H. unfold get_session_history. rewrite H. simpl.
  by rewrite lookup_insert_eq.
Qed.

(** C10: clearing a session leaves the history of every other session id
    as it was, and when the named id is not in the store the whole store is
    unchanged. *)
Theorem clear_history_frame (store : Store) sid :
  (∀ sid', sid' ≠ sid →
     (clear_history sid store).2 !! sid' = store !! sid')
  ∧ (store !! sid = None → (clear_history sid store).2 = store).
Proof.
  unfold clear_history. destruct (store !! sid) as [h|] eqn:E; simpl.
  - split; [|discriminate]. intros sid' Hne. by rewrite lookup_insert_ne.
  - done.
Qed.

Lemma clear_history_frame_witness :
  let h := [ {| msg_class := HumanMessage; content := "hello" |} ] in
  (clear_history "a" (<["b" := h]> ∅)).2 !! "b"
  = (<["b" := h]> ∅ : Store) !! "b"
  ∧ (clear_history "a" (<["b" := h]> ∅)).2 = <["b" := h]> ∅.
Proof.
  intros h. split.
  - apply (proj1 (clear_history_frame (<["b" := h]> ∅) "a")). discriminate.
  - apply (proj2 (clear_history_frame (<["b" := h]> ∅) "a")). reflexivity.
Defined.

(** What a successful call of the chain leaves under the session id. *)
Lemma chat_appends chain sid input (store : Store) out :
  (chain_with_history_invoke chain input sid store).1 = Returned out →
  (chat chain {| session_id := sid; message := input |} store).2 !! sid
  = Some (default [] (store !! sid)
          ++ [ {| msg_class := HumanMessage; content := input |};
               {| msg_class := AIMessage; content := out |} ]).
Proof.
  unfold chat, chain_with_history_invoke, get_session_history. simpl.
  destruct (store !! sid) as [h|] eqn:E; simpl;
    (destruct (chain _ input) as [out'|e]; simpl; [|discriminate]);
    intros [= <-]; by rewrite lookup_insert_eq.
Qed.

(** C7 as stated fails: when the model call of the first post raises, the
    first message is not recorded, so the history does not show it before
    the second. *)
Lemma chat_history_order_fails_on_error :
  ¬ sent_in_order "a" "b"
      (response_messages
         (two_posts_then_history (chain_failing_on "a") "s" "a" "b" ∅)).
Proof.
  assert (response_messages
            (two_posts_then_history (chain_failing_on "a") "s" "a" "b" ∅)
          = [human_entry "b";
             message_json {| msg_class := AIMessage; content := "ok" |}])
    as -> by reflexivity.
  intros (pre & mid & post & H).
  destruct pre as [|x1 [|x2 [|x3 pre]]]; simpl in H; discriminate.
Qed.

(** C7, amended: when the chain returns for both posts (neither call
    raises), the history lists the first message, as a human entry, before
    the second. *)
Theorem chat_history_order chain (store : Store) sid m1 m2 r1 r2 :
  (chain_with_history_invoke chain m1 sid store).1 = Returned r1 →
  (chain_with_history_invoke chain m2 sid
     (chat chain {| session_id := sid; message := m1 |} store).2).1
  = Returned r2 →
  sent_in_order m1 m2
    (response_messages (two_posts_then_history chain sid m1 m2 store)).
Proof.
  intros H1 H2.
  pose proof (chat_appends _ _ _ _ _ H1) as E1.
  pose proof (chat_appends _ _ _ _ _ H2) as E2.
  rewrite E1 in E2. simpl in E2.
  unfold two_posts_then_history, get_history. rewrite E2.
  unfold response_messages. simpl.
  exists (message_json <$> default [] (store !! sid)),
    [message_json {| msg_class := AIMessage; content := r1 |}],
    [message_json {| msg_class := AIMessage; content := r2 |}].
  rewrite !fmap_app. simpl. by rewrite <- app_assoc.
Qed.

Lemma chat_history_order_witness :
  sent_in_order "a" "b"
    (response_messages (two_posts_then_history chain_echo "s" "a" "b" ∅)).
Proof.
  apply (chat_history_order chain_echo ∅ "s" "a" "b" "echo a" "echo b");
    reflexivity.
Defined.

End ChatFacts.

(** ** Start-up *)

Section StartupFacts.
Import Startup.

(** C8: both services raise the [ValueError] at start-up, with nothing
    created, exactly when [OPENAI_API_KEY] is absent or empty as the module
    reads it. *)
Theorem startup_fails_fast (dotenv environ : Environ) :
  (credential_missing dotenv environ ↔ fails_fast (main_py dotenv environ))
  ∧ (credential_missing dotenv environ
     ↔ fails_fast (db_agent_py dotenv environ)).
Proof.
  unfold credential_missing, fails_fast, main_py, db_agent_py.
  destruct (getenv (load_dotenv dotenv environ) "OPENAI_API_KEY")
    as [key|] eqn:E; simpl.
  - case_bool_decide as Hk.
    + subst key. split; (split; [done | by right]).
    + split; (split; [intros [?|[= ?]]; done | discriminate]).
  - split; (split; [done | by left]).
Qed.

(** A key given only by the [.env] file is found. *)
Lemma startup_key_from_dotenv :
  main_py {["OPENAI_API_KEY" := "sk-test"]} ∅
  = Returned {| api_key_used := "sk-test";
                created := ["llm"; "prompt"; "chain"; "store";
                            "chain_with_history"; "app";
                            "GET /"; "GET /health"; "POST /chat";
                            "DELETE /chat/{session_id}";
                            "GET /chat/{session_id}/history"] |}.
Proof. reflexivity. Qed.

End StartupFacts.

(** ** The database and the session *)

Section DatabaseFacts.
Import Seed.

Lemma insert_row_contents d r d' k :
  insert_row d r = Some (d', k) →
  table_contents d' (table_of r) = table_contents d (table_of r) ++ [(k, r)]
  ∧ ∀ t, t ≠ table_of r → table_contents d' t = table_contents d t.
Proof.
  unfold insert_row, table_contents.
  destruct (d (table_of r)) as [td|] eqn:E; simpl; [|discriminate].
  intros [= <- <-]. split.
  - by rewrite fn_lookup_insert.
  - intros t Hne. by rewrite fn_lookup_insert_ne.
Qed.

Lemma insert_row_has_pk d r d' k ref :
  insert_row d r = Some (d', k) → has_pk d ref → has_pk d' ref.
Proof.
  intros [He Hne]%insert_row_contents. unfold has_pk.
  destruct (decide (ref.1 = table_of r)) as [->|Hn].
  - rewrite He, fmap_app, elem_of_app. by left.
  - by rewrite Hne.
Qed.

Lemma fk_ok_mono d d' r :
  (∀ ref, has_pk d ref → has_pk d' ref) → fk_ok d r → fk_ok d' r.
Proof. intros H Hr. unfold fk_ok in *. by eapply Forall_impl. Qed.

Lemma insert_row_persisted d r d' k :
  insert_row d r = Some (d', k) → persisted d' (k, r).
Proof.
  intros [He _]%insert_row_contents. unfold persisted, has_pk. simpl.
  rewrite He, fmap_app, elem_of_app. right. simpl. apply list_elem_of_here.
Qed.

Lemma insert_row_fk_integrity d r d' k :
  insert_row d r = Some (d', k) →
  fk_integrity d → fk_ok d r → fk_integrity d'.
Proof.
  intros Hi Hd Hr t o Ho.
  apply fk_ok_mono with d; [intros ref; by apply insert_row_has_pk with r k|].
  destruct (insert_row_contents _ _ _ _ Hi) as [He Hne].
  destruct (decide (t = table_of r)) as [->|Hn].
  - rewrite He, elem_of_app in Ho. destruct Ho as [Ho|Ho].
    + by apply Hd with (table_of r).
    + apply list_elem_of_singleton in Ho. by subst o.
  - rewrite Hne in Ho by done. by apply Hd with t.
Qed.

Lemma project_code_of_table r c :
  project_code_of r = Some c → table_of r = tbl_projects.
Proof. by destruct r. Qed.

Lemma insert_row_project_codes d r d' k :
  insert_row d r = Some (d', k) →
  project_codes d' = project_codes d ++ codes_of [r].
Proof.
  intros [He Hne]%insert_row_contents. unfold project_codes, codes_of.
  destruct (decide (tbl_projects = table_of r)) as [Ht|Hn].
  - rewrite Ht, He, fmap_app. by rewrite omap_app.
  - rewrite Hne by done. simpl.
    destruct (project_code_of r) as [c|] eqn:Ec.
    + apply project_code_of_table in Ec. congruence.
    + by rewrite app_nil_r.
Qed.

(** What a successful flush does. *)
Lemma flush_spec rs : ∀ d d' objs,
  flush d rs = Some (d', objs) →
  fk_integrity d → Forall (fk_ok d) rs →
  fk_integrity d'
  ∧ (∀ ref, has_pk d ref → has_pk d' ref)
  ∧ Forall (persisted d') objs
  ∧ objs.*2 = rs
  ∧ project_codes d' = project_codes d ++ codes_of rs.
Proof.
  induction rs as [|r rs IH]; intros d d' objs; simpl.
  - intros [= <- <-] Hd _. unfold codes_of. simpl.
    rewrite app_nil_r. by repeat split.
  - destruct (insert_row d r) as [[d1 k]|] eqn:E1; simpl; [|discriminate].
    destruct (flush d1 rs) as [[d2 out]|] eqn:E2; simpl; [|discriminate].
    intros [= <- <-] Hd Hrs. inversion Hrs as [|? ? Hr Hrs']; subst.
    assert (∀ ref, has_pk d ref → has_pk d1 ref) as Hm
      by (intros ref; by apply insert_row_has_pk with r k).
    destruct (IH d1 d2 out E2) as (Hd2 & Hm2 & Hp & Ho & Hc).
    { by apply insert_row_fk_integrity with d r k. }
    { eapply Forall_impl; [exact Hrs'|]. intros r'. by apply fk_ok_mono. }
    split; [done|]. split; [by auto|]. split.
    { constructor; [|done]. apply Hm2. by apply insert_row_persisted with d. }
    split; [simpl; by f_equal|].
    rewrite Hc, (insert_row_project_codes _ _ _ _ E1).
    unfold codes_of. rewrite <- app_assoc. f_equal.
    by rewrite <- omap_app.
Qed.

End DatabaseFacts.

(** ** Rules for runs of the generator *)

Section Rules.
Import Seed.
Local Open Scope M_scope.

Variable rng : nat → nat.
Variable faker : string → nat → string.

Implicit Types (φ : Row → Prop).

Lemma inv_consistent L φ cs d p : inv L φ cs d p → consistent d.
Proof.
  intros (Hd & _ & _ & Hc & Hn). split; [done|].
  unfold unique_project_code. subst cs. by apply NoDup_app in Hn as [? _].
Qed.

Lemma triple_bind {A B} L φ cs (m : M A) (k : A → M B) R1 L1 φ1 cs1
    R2 L2 φ2 cs2 :
  triple L φ cs m R1 L1 φ1 cs1 →
  (∀ a, R1 a → triple (L1 a) φ1 (cs1 a) (k a) R2 L2 φ2 cs2) →
  triple L φ cs (bind m k) R2 L2 φ2 cs2.
Proof.
  intros Hm Hk s Hs. unfold bind. specialize (Hm s Hs).
  destruct (m s) as [[a|e] s']; [|done].
  destruct Hm as [Ha Hs']. by apply Hk.
Qed.

Lemma triple_weaken {A} L φ cs (m : M A) R L1 φ1 cs1 (R' : A → Prop) L' φ' :
  triple L φ cs m R L1 φ1 cs1 →
  (∀ a, R a → R' a) →
  (∀ a, L' a ⊆ L1 a) →
  (∀ r, φ1 r → φ' r) →
  triple L φ cs m R' L' φ' cs1.
Proof.
  intros Hm HR HL Hφ s Hs. specialize (Hm s Hs).
  destruct (m s) as [[a|e] s']; [|done].
  destruct Hm as [Ha (Hd & Hp & Hl & Hc & Hn)].
  split; [by auto|]. split; [done|]. split.
  { eapply Forall_impl; [exact Hp|]. intros r [? ?]. by auto. }
  split; [|done].
  apply Forall_forall. intros o Ho. apply HL in Ho.
  by eapply Forall_forall in Hl.
Qed.

Lemma ends_bind {A B} L φ cs (m : M A) (k : A → M B) R1 L1 φ1 cs1 φ' C :
  triple L φ cs m R1 L1 φ1 cs1 →
  (∀ a, R1 a → ends (L1 a) φ1 (cs1 a) (k a) φ' C) →
  ends L φ cs (bind m k) φ' C.
Proof.
  intros Hm Hk s Hs. unfold bind. specialize (Hm s Hs).
  destruct (m s) as [[a|e] s']; [|done].
  destruct Hm as [Ha Hs']. by apply Hk.
Qed.

Lemma ends_bind_keeps {A B} L φ cs (m : M A) (k : A → M B) R1 φ' C :
  keeps L φ cs m R1 →
  (∀ a, R1 a → ends L φ cs (k a) φ' C) →
  ends L φ cs (bind m k) φ' C.
Proof. apply ends_bind. Qed.

Lemma ends_ret {A} L φ cs (a : A) (C : list string → Prop) :
  C cs → ends L φ cs (ret a) φ C.
Proof. intros HC s Hs. simpl. eauto. Qed.

Lemma ends_seq {A B} L φ cs (m : M A) (k : A → M B) φ1 C1 φ' C :
  ends L φ cs m φ1 C1 →
  (∀ a L1 cs1, C1 cs1 → ends L1 φ1 cs1 (k a) φ' C) →
  ends L φ cs (bind m k) φ' C.
Proof.
  intros Hm Hk s Hs. unfold bind. specialize (Hm s Hs).
  destruct (m s) as [[a|e] s']; [|done].
  destruct Hm as (L1 & cs1 & HC & Hs'). by eapply Hk.
Qed.

Lemma ends_consistent {A} L φ cs (m : M A) φ' C s :
  ends L φ cs m φ' C →
  inv L φ cs (database s) (pending s) →
  consistent (database (m s).2).
Proof.
  intros Hm Hs. specialize (Hm s Hs).
  destruct (m s) as [[a|e] s']; [|done].
  destruct Hm as (L1 & cs1 & _ & Hs'). by eapply inv_consistent.
Qed.

(** When nothing may be pending, the codes of the assertion are those of
    the table. *)
Lemma ends_codes {A} L φ cs (m : M A) C s a s' :
  ends L φ cs m (λ _, False) C →
  inv L φ cs (database s) (pending s) →
  m s = (Returned a, s') →
  C (project_codes (database s')).
Proof.
  intros Hm Hs E. specialize (Hm s Hs). rewrite E in Hm.
  destruct Hm as (L1 & cs1 & HC & _ & Hp & _ & Hc & _).
  destruct (pending s') as [|r p]; [|by inversion Hp as [|? ? [_ []]]].
  unfold codes_of in Hc. simpl in Hc. rewrite app_nil_r in Hc. by subst.
Qed.

Lemma keeps_ret {A} L φ cs (a : A) (R : A → Prop) :
  R a → keeps L φ cs (ret a) R.
Proof. intros Ha s Hs. by split. Qed.

Lemma keeps_bind {A B} L φ cs (m : M A) (k : A → M B) R1 R2 :
  keeps L φ cs m R1 →
  (∀ a, R1 a → keeps L φ cs (k a) R2) →
  keeps L φ cs (bind m k) R2.
Proof. apply triple_bind. Qed.

Lemma keeps_weaken {A} L φ cs (m : M A) (R R' : A → Prop) :
  keeps L φ cs m R → (∀ a, R a → R' a) → keeps L φ cs m R'.
Proof. intros Hm HR. by eapply triple_weaken. Qed.

Lemma keeps_raise {A} L φ cs e (R : A → Prop) : keeps L φ cs (raise e) R.
Proof. intros s Hs. simpl. by eapply inv_consistent. Qed.

Lemma keeps_draw L φ cs : keeps L φ cs (draw rng) (λ _, True).
Proof. intros s Hs. by split. Qed.

Lemma keeps_fake L φ cs provider :
  keeps L φ cs (fake rng faker provider) (λ _, True).
Proof.
  eapply keeps_bind; [apply keeps_draw|]. intros n _. by apply keeps_ret.
Qed.

Lemma keeps_randint L φ cs a b :
  keeps L φ cs (randint rng a b) (λ _, True).
Proof.
  eapply keeps_bind; [apply keeps_draw|]. intros n _. by apply keeps_ret.
Qed.

Lemma keeps_uniform_round2 L φ cs a b :
  keeps L φ cs (uniform_round2 rng a b) (λ _, True).
Proof. apply keeps_randint. Qed.

Lemma keeps_random_gt L φ cs p :
  keeps L φ cs (random_gt rng p) (λ _, True).
Proof.
  eapply keeps_bind; [apply keeps_draw|]. intros n _. by apply keeps_ret.
Qed.

Lemma keeps_if_random_gt {A} L φ cs p (x : M A) R :
  keeps L φ cs x R → keeps L φ cs (if_random_gt rng p x) (λ _, True).
Proof.
  intros Hx. eapply keeps_bind; [apply keeps_random_gt|].
  intros [|] _; [|by apply keeps_ret].
  eapply keeps_bind; [exact Hx|]. intros a _. by apply keeps_ret.
Qed.

Lemma keeps_choice {A} L φ cs (l : list A) :
  keeps L φ cs (choice rng l) (λ a, a ∈ l).
Proof.
  destruct l as [|x l]; [apply keeps_raise|].
  unfold choice. eapply keeps_bind; [apply keeps_draw|]. intros n _.
  destruct (_ !! _) as [y|] eqn:E; [|apply keeps_raise].
  apply keeps_ret. by eapply list_elem_of_lookup_2.
Qed.

Lemma keeps_sample_from {A} L φ cs k : ∀ l : list A,
  keeps L φ cs (sample_from rng k l) (λ xs, xs ⊆ l).
Proof.
  induction k as [|k IH]; intros l; simpl.
  - apply keeps_ret. set_solver.
  - eapply keeps_bind; [apply keeps_draw|]. intros n _.
    destruct (l !! _) as [x|] eqn:E; [|apply keeps_ret; set_solver].
    eapply keeps_bind; [apply IH|]. intros xs Hxs. apply keeps_ret.
    intros y [->|Hy]%elem_of_cons.
    + by eapply list_elem_of_lookup_2.
    + eapply list_elem_of_delete_inv. by apply Hxs.
Qed.

Lemma keeps_sample {A} L φ cs (l : list A) k :
  keeps L φ cs (sample rng l k) (λ xs, xs ⊆ l).
Proof.
  unfold sample. case_decide; [apply keeps_raise | apply keeps_sample_from].
Qed.

Lemma keeps_index_mod_len {A} L φ cs (l : list A) i :
  keeps L φ cs (index_mod_len l i) (λ a, a ∈ l).
Proof.
  unfold index_mod_len. destruct (length l) as [|n]; [apply keeps_raise|].
  destruct (_ !! _) as [y|] eqn:E; [|apply keeps_raise].
  apply keeps_ret. by eapply list_elem_of_lookup_2.
Qed.

Lemma keeps_for_each {A} L φ cs (l : list A) body :
  (∀ x, x ∈ l → keeps L φ cs (body x) (λ _, True)) →
  keeps L φ cs (for_each l body) (λ _, True).
Proof.
  induction l as [|x l IH]; intros Hb; simpl.
  - by apply keeps_ret.
  - eapply keeps_bind; [apply Hb; by left|]. intros _ _.
    apply IH. intros y Hy. apply Hb. by right.
Qed.

Lemma keeps_collect {A B} L φ cs (l : list A) (body : A → M (list B))
    (R : A → list B → Prop) :
  (∀ x, x ∈ l → keeps L φ cs (body x) (R x)) →
  keeps L φ cs (collect l body)
    (λ ys, ∃ yss, ys = concat yss ∧ Forall2 R l yss).
Proof.
  induction l as [|x l IH]; intros Hb; simpl.
  - apply keeps_ret. exists []. by split; [|constructor].
  - eapply keeps_bind; [apply Hb; by left|]. intros ys Hys.
    eapply keeps_bind; [apply IH; intros y Hy; apply Hb; by right|].
    intros zs (yss & -> & Hzs). apply keeps_ret.
    exists (ys :: yss). by split; [|constructor].
Qed.

Lemma keeps_collect_Forall {A B} L φ cs (l : list A)
    (body : A → M (list B)) (ψ : B → Prop) :
  (∀ x, x ∈ l → keeps L φ cs (body x) (Forall ψ)) →
  keeps L φ cs (collect l body) (Forall ψ).
Proof.
  intros Hb. eapply keeps_weaken;
    [apply (keeps_collect _ _ _ _ _ (λ _, Forall ψ)); exact Hb|].
  intros ys (yss & -> & H). apply Forall_concat. clear Hb.
  induction H as [|x ys l yss Hys _ IH]; [apply Forall_nil_2|].
  by apply Forall_cons_2.
Qed.

Lemma known_persisted L d r :
  Forall (persisted d) L → Forall (known L) (foreign_keys r) → fk_ok d r.
Proof.
  intros HL Hk. unfold fk_ok. eapply Forall_impl; [exact Hk|].
  intros [t k] (o & Ho & Ht & Hk'). simpl in *. subst.
  by eapply Forall_forall in HL.
Qed.

Lemma keeps_session_add L φ cs r :
  Forall (known L) (foreign_keys r) → φ r → project_code_of r = None →
  keeps L φ cs (session_add r) (λ _, True).
Proof.
  intros Hk Hφ Hc s (Hd & Hp & Hl & Hcs & Hn). simpl.
  split; [done|]. split; [done|]. split.
  { apply Forall_app. split; [done|]. constructor; [|done].
    split; [|done]. by eapply known_persisted. }
  split; [done|]. split; [|done].
  unfold codes_of in *. rewrite omap_app. simpl. rewrite Hc.
  by rewrite app_nil_r.
Qed.

Lemma triple_session_add_all L φ cs rs :
  Forall (λ r, Forall (known L) (foreign_keys r) ∧ φ r) rs →
  NoDup (cs ++ codes_of rs) →
  triple L φ cs (session_add_all rs) (λ _, True)
    (λ _, L) φ (λ _, cs ++ codes_of rs).
Proof.
  intros Hrs Hnd s (Hd & Hp & Hl & Hcs & Hn). simpl.
  split; [done|]. split; [done|]. split.
  { apply Forall_app. split; [done|]. eapply Forall_impl; [exact Hrs|].
    intros r [? ?]. split; [|done]. by eapply known_persisted. }
  split; [done|]. split; [|done].
  unfold codes_of in *. rewrite omap_app, app_assoc. by rewrite Hcs.
Qed.

Lemma triple_session_commit L φ cs φ' :
  triple L φ cs session_commit (λ objs, Forall (λ o, φ o.2) objs)
    (λ objs, objs ++ L) φ' (λ _, cs).
Proof.
  intros s (Hd & Hp & Hl & Hcs & Hn). unfold session_commit.
  destruct (flush (database s) (pending s)) as [[d' objs]|] eqn:E; simpl.
  - destruct (flush_spec _ _ _ _ E Hd) as (Hd' & Hm & Hpo & Ho & Hc).
    { eapply Forall_impl; [exact Hp|]. by intros r [? _]. }
    split.
    { rewrite <- Ho in Hp. rewrite Forall_fmap in Hp.
      eapply Forall_impl; [exact Hp|]. by intros o [_ ?]. }
    split; [done|]. split; [done|]. split.
    { apply Forall_app. split; [done|]. eapply Forall_impl; [exact Hl|].
      intros o. apply Hm. }
    split; [|done]. rewrite Hc. unfold codes_of. simpl.
    by rewrite app_nil_r.
  - split; [done|]. unfold unique_project_code. subst cs.
    by apply NoDup_app in Hn as [? _].
Qed.

Lemma triple_session_commit_drop L φ cs φ' :
  triple L φ cs session_commit (λ _, True) (λ _, L) φ' (λ _, cs).
Proof.
  eapply triple_weaken; [apply (triple_session_commit L φ cs φ')|..];
    [done | | done].
  intros objs. set_solver.
Qed.

Lemma keeps_session_add_all L φ cs rs :
  Forall (λ r, Forall (known L) (foreign_keys r) ∧ φ r
               ∧ project_code_of r = None) rs →
  keeps L φ cs (session_add_all rs) (λ _, True).
Proof.
  intros Hrs s Hs.
  assert (codes_of rs = []) as Hc.
  { unfold codes_of. induction Hrs as [|r rs (_ & _ & Hr) _ IH]; [done|].
    simpl. by rewrite Hr. }
  pose proof (triple_session_add_all L φ cs rs) as H.
  rewrite Hc, app_nil_r in H. apply H; [|by destruct Hs as (_&_&_&_&?)|done].
  eapply Forall_impl; [exact Hrs|]. by intros r (? & ? & _).
Qed.

Lemma keeps_session_commit L φ cs :
  keeps L φ cs session_commit (λ _, True).
Proof.
  eapply triple_weaken; [apply (triple_session_commit L φ cs φ)|..];
    [done | | done].
  intros objs. set_solver.
Qed.

End Rules.

(** ** The seed generator *)

Section GeneratorFacts.
Import Seed.
Local Open Scope M_scope.

Variable rng : nat → nat.
Variable faker : string → nat → string.
Variable today : date.

Lemma project_code_inj : Inj (=) (=) project_code.
Proof.
  intros i j H. unfold project_code in H.
  apply (inj (String.append "PRJ")) in H.
  apply (inj (pretty (A:=nat))) in H. lia.
Qed.

Lemma enumerate_elem {A} (l : list A) i x : (i, x) ∈ enumerate l → x ∈ l.
Proof. unfold enumerate. apply elem_of_zip_r. Qed.

Lemma collect_codes (ψ : Row → Prop) (g : nat → string) l yss :
  Forall2 (λ i ys, Forall ψ ys ∧ codes_of ys = [g i]) l yss →
  Forall ψ (concat yss) ∧ codes_of (concat yss) = g <$> l.
Proof.
  induction 1 as [|i ys l yss [Hψ Hc] _ [IH1 IH2]]; simpl.
  - by split.
  - split; [by apply Forall_app_2|].
    unfold codes_of in *. by rewrite omap_app, Hc, IH2.
Qed.

(** One step of a loop body or of a stage that keeps the assertion. *)
Ltac mem_tac :=
  try match goal with
      | Hs : ?xs ⊆ _, Hx : ?x ∈ ?xs |- _ => apply Hs in Hx
      end;
  rewrite ?elem_of_app; auto 10.

Ltac known_tac :=
  lazymatch goal with
  | |- known _ (_, fst ?x) =>
      exists x; split; [mem_tac | split; [simpl | reflexivity]];
      match goal with
      | H : ∀ o, o ∈ _ → table_of o.2 = ?T |- table_of _ = ?T =>
          apply H; mem_tac
      end
  end.

Ltac fk_tac := cbn [foreign_keys]; repeat (constructor; [known_tac|]);
  try apply Forall_nil_2.

Ltac keeps_body :=
  lazymatch goal with
  | |- keeps _ _ _ (bind _ _) _ =>
      eapply keeps_bind; [keeps_body | intros; keeps_body]
  | |- keeps _ _ _ (ret _) ?R =>
      tryif is_evar R
      then (apply (keeps_ret _ _ _ _ (λ _, True)); exact I)
      else (apply keeps_ret; try exact I)
  | |- keeps _ _ _ (draw _) _ => apply keeps_draw
  | |- keeps _ _ _ (fake _ _ _) _ => apply keeps_fake
  | |- keeps _ _ _ (randint _ _ _) _ => apply keeps_randint
  | |- keeps _ _ _ (uniform_round2 _ _ _) _ => apply keeps_uniform_round2
  | |- keeps _ _ _ (random_gt _ _) _ => apply keeps_random_gt
  | |- keeps _ _ _ (choice _ _) _ => apply keeps_choice
  | |- keeps _ _ _ (sample _ _ _) _ => apply keeps_sample
  | |- keeps _ _ _ (index_mod_len _ _) _ => apply keeps_index_mod_len
  | |- keeps _ _ _ (if_random_gt _ _ _) _ =>
      eapply keeps_if_random_gt; keeps_body
  | |- keeps _ _ _ (for_each _ _) _ =>
      apply keeps_for_each; intros; keeps_body
  | |- keeps _ _ _ session_commit _ => apply keeps_session_commit
  | |- keeps _ _ _ (session_add _) _ =>
      apply keeps_session_add; [fk_tac | reflexivity | reflexivity]
  | |- keeps _ _ _ (if decide _ then _ else _) _ =>
      case_decide; keeps_body
  end.

(** The rows a list-building loop returns. *)
Ltac row_ok :=
  apply Forall_cons_2; [split; [fk_tac | by split] | apply Forall_nil_2].

Ltac stage := eapply ends_bind_keeps; [keeps_body | intros ? _].
Ltac commit_drop T :=
  eapply ends_bind;
    [apply (triple_session_commit_drop _ _ _ (at_table T)) | intros ? _].
Tactic Notation "commit_keep" constr(T) "as" ident(objs) ident(H) :=
  eapply ends_bind; [apply (triple_session_commit _ _ _ (at_table T)) | ];
  intros objs H; rewrite Forall_forall in H; unfold at_table in H.

Lemma generate_sample_data_ends n1 n2 n3 n4 n5 n6 :
  ends [] (at_table tbl_companies) []
    (generate_sample_data rng faker today n1 n2 n3 n4 n5 n6)
    (at_table tbl_kpi_catalog) (λ cs, cs = project_code <$> range n3).
Proof.
  unfold generate_sample_data.
  (* Companies *)
  eapply ends_bind_keeps.
  { apply keeps_collect_Forall with
      (ψ := λ r, Forall (known []) (foreign_keys r)
                 ∧ at_table tbl_companies r ∧ project_code_of r = None).
    intros; keeps_body. by repeat constructor. }
  intros companies0 Hcompanies0.
  eapply ends_bind_keeps; [by apply keeps_session_add_all | intros ? _].
  commit_keep tbl_company_revenue as companies Hcompanies.
  (* Company Revenue *)
  stage. commit_drop tbl_clients.
  (* Clients *)
  eapply ends_bind_keeps.
  { apply keeps_collect_Forall with
      (ψ := λ r, Forall (known (companies ++ [])) (foreign_keys r)
                 ∧ at_table tbl_clients r ∧ project_code_of r = None).
    intros c Hc. apply keeps_collect_Forall. intros; keeps_body. row_ok. }
  intros clients0 Hclients0.
  eapply ends_bind_keeps; [by apply keeps_session_add_all | intros ? _].
  commit_keep tbl_project_categories as clients Hclients.
  (* Project Categories *)
  cbv zeta.
  eapply ends_bind_keeps.
  { apply keeps_session_add_all. cbn [fmap list_fmap].
    repeat (apply Forall_cons_2; [split; [fk_tac | by split]|]).
    apply Forall_nil_2. }
  intros ? _.
  commit_keep tbl_projects as categories Hcategories.
  (* Projects *)
  eapply ends_bind_keeps.
  { apply keeps_collect with
      (R := λ i ys,
         Forall (λ r, Forall (known (categories ++ clients ++ companies ++ []))
                        (foreign_keys r)
                      ∧ at_table tbl_projects r) ys
         ∧ codes_of ys = [project_code i]).
    intros i Hi. keeps_body. split; [|reflexivity].
    apply Forall_cons_2; [split; [fk_tac | reflexivity] | apply Forall_nil_2]. }
  intros projects0 (yss & -> & Hyss).
  apply collect_codes in Hyss as [Hrows Hcodes].
  eapply ends_bind.
  { apply triple_session_add_all; [exact Hrows|].
    rewrite Hcodes. simpl. apply NoDup_fmap_2; [apply project_code_inj|].
    apply NoDup_seq. }
  intros ? _.
  commit_keep tbl_project_details as projects Hprojects.
  (* Project Details *)
  stage. commit_drop tbl_employees.
  (* Employees *)
  eapply ends_bind_keeps.
  { apply keeps_collect_Forall with
      (ψ := λ r, Forall (known (projects ++ categories ++ clients
                                ++ companies ++ [])) (foreign_keys r)
                 ∧ at_table tbl_employees r ∧ project_code_of r = None).
    intros; keeps_body. row_ok. }
  intros employees0 Hemployees0.
  eapply ends_bind_keeps; [by apply keeps_session_add_all | intros ? _].
  commit_keep tbl_team_members as employees Hemployees.
  (* Team Members *)
  stage. commit_drop tbl_project_goals.
  (* Project Goals *)
  stage. commit_drop tbl_milestones.
  (* Milestones *)
  stage. commit_drop tbl_defects.
  (* Defects *)
  stage. commit_drop tbl_issues.
  (* Issues *)
  stage. commit_drop tbl_time_entry.
  (* Time Entries *)
  stage. commit_drop tbl_project_cost.
  (* Project Cost *)
  stage. commit_drop tbl_employee_exit.
  (* Employee Exits *)
  cbv zeta.
  eapply ends_bind_keeps; [keeps_body | intros exit_sample Hexit].
  stage. commit_drop tbl_hiring_pipeline.
  (* Hiring Pipeline *)
  stage. commit_drop tbl_training_attendance.
  (* Training Attendance *)
  eapply ends_bind_keeps.
  { apply keeps_for_each. intros [idx emp] Hx%enumerate_elem.
    cbv beta iota. keeps_body. }
  intros ? _.
  commit_drop tbl_kpi_catalog.
  apply ends_ret. by rewrite Hcodes.
Qed.

Lemma insert_kpi_catalog_ends L cs (C : list string → Prop) :
  C cs →
  ends L (at_table tbl_kpi_catalog) cs insert_kpi_catalog (λ _, False) C.
Proof.
  intros HC. unfold insert_kpi_catalog.
  eapply ends_bind_keeps.
  { apply keeps_for_each.
    intros [[[[[[[[k0 k1] k2] k3] k4] k5] k6] k7] k8] _.
    cbv beta iota. keeps_body. }
  intros ? _.
  eapply ends_bind;
    [apply (triple_session_commit_drop _ _ _ (λ _, False)) | intros ? _].
  by apply ends_ret.
Qed.

Lemma seed_ends n1 n2 n3 n4 n5 n6 :
  ends [] (at_table tbl_companies) []
    (seed rng faker today n1 n2 n3 n4 n5 n6)
    (λ _, False) (λ cs, cs = project_code <$> range n3).
Proof.
  unfold seed. eapply ends_seq; [apply generate_sample_data_ends|].
  intros _ L1 cs1 HC. by apply insert_kpi_catalog_ends.
Qed.

End GeneratorFacts.

(** ** The claims about the seed generator *)

Section SeedClaims.
Import Seed.

Variable rng : nat → nat.
Variable faker : string → nat → string.
Variable today : date.

Lemma recreate_schema_empty d t : recreate_schema d t = Some empty_table.
Proof. reflexivity. Qed.

Lemma recreate_schema_const d d' : recreate_schema d = recreate_schema d'.
Proof. reflexivity. Qed.

Lemma new_session_inv d φ :
  inv [] φ [] (recreate_schema d) (pending (new_session (recreate_schema d))).
Proof.
  split; [|split; [|split; [|split]]]; simpl.
  - intros t o Ho. unfold table_contents in Ho.
    rewrite recreate_schema_empty in Ho. by apply elem_of_nil in Ho.
  - apply Forall_nil_2.
  - apply Forall_nil_2.
  - reflexivity.
  - apply NoDup_nil_2.
Qed.

(** C1: after a run of the seed generator on the rebuilt schema, for any
    row counts and any random values, every foreign key of every row in the
    database refers to an existing row of its parent table (also when the
    run stops on an exception). *)
Theorem seed_foreign_keys_resolve n1 n2 n3 n4 n5 n6 (d : Database) :
  fk_integrity
    (database
       (seed rng faker today n1 n2 n3 n4 n5 n6
          (new_session (recreate_schema d))).2).
Proof.
  eapply proj1, ends_consistent; [apply seed_ends|]. apply new_session_inv.
Qed.

(** C2: the project codes built for distinct indices differ; the codes
    stored by a run on the rebuilt schema are pairwise distinct, for any
    [num_projects]; and when the run returns they are the codes of
    [range(num_projects)], in order. *)
Theorem seed_project_codes_distinct n1 n2 n3 n4 n5 n6 (d : Database) :
  (∀ i j, i ≠ j → project_code i ≠ project_code j)
  ∧ unique_project_code
      (database
         (seed rng faker today n1 n2 n3 n4 n5 n6
            (new_session (recreate_schema d))).2)
  ∧ ((seed rng faker today n1 n2 n3 n4 n5 n6
        (new_session (recreate_schema d))).1 = Returned () →
     project_codes
       (database
          (seed rng faker today n1 n2 n3 n4 n5 n6
             (new_session (recreate_schema d))).2)
     = project_code <$> range n3).
Proof.
  split; [|split].
  - intros i j Hne Heq. by apply project_code_inj in Heq.
  - eapply proj2, ends_consistent; [apply seed_ends|]. apply new_session_inv.
  - intros Hr.
    destruct (seed rng faker today n1 n2 n3 n4 n5 n6
                (new_session (recreate_schema d))) as [r s'] eqn:E.
    simpl in Hr. subst r. simpl.
    apply (ends_codes [] (at_table tbl_companies) []
             (seed rng faker today n1 n2 n3 n4 n5 n6)
             (λ cs, cs = project_code <$> range n3)
             (new_session (recreate_schema d)) () s');
      [apply seed_ends | apply new_session_inv | exact E].
Qed.

(** What [main] returns and leaves does not depend on what the database
    held. *)
Lemma main_prior_state d d' : main rng faker today d = main rng faker today d'.
Proof. unfold main. by rewrite (recreate_schema_const d d'). Qed.

(** C3: [main] rebuilds the schema before it seeds: whatever the database
    held, every table exists and is empty when seeding begins, and a second
    run of [main] leaves what a run on an empty database leaves. *)
Theorem main_full_reset (d : Database) :
  (∀ t, recreate_schema d t = Some empty_table)
  ∧ (∀ t, table_contents (recreate_schema d) t = [])
  ∧ (∀ rng1 faker1 today1,
       main rng faker today (main rng1 faker1 today1 d).2
       = main rng faker today (drop_all d)).
Proof.
  split; [|split].
  - apply recreate_schema_empty.
  - intros t. unfold table_contents. by rewrite recreate_schema_empty.
  - intros rng1 faker1 today1. apply main_prior_state.
Qed.

(** A run with small counts on a fixed stream returns, stores the three
    project codes and gives each of the three projects a team of four. *)
Example seed_small_run :
  (seed (λ n, 7 * n + 3) (λ p _, p) 0%Z 2 2 3 4 2 5
     (new_session (recreate_schema (λ _, None)))).1 = Returned ()
  ∧ project_codes
      (database
         (seed (λ n, 7 * n + 3) (λ p _, p) 0%Z 2 2 3 4 2 5
            (new_session (recreate_schema (λ _, None)))).2)
    = ["PRJ1000"; "PRJ1001"; "PRJ1002"]
  ∧ (λ t, length
            (table_contents
               (database
                  (seed (λ n, 7 * n + 3) (λ p _, p) 0%Z 2 2 3 4 2 5
                     (new_session (recreate_schema (λ _, None)))).2) t))
      <$> [tbl_companies; tbl_clients; tbl_projects; tbl_employees;
           tbl_team_members; tbl_kpi_catalog]
    = [2; 4; 3; 4; 12; 7].
Proof. by vm_compute. Qed.

End SeedClaims.

(** * Further properties *)

(** ** The chat service, request by request *)

Section ChatMore.
Import Chat.

Variable chain : list Message → string → Result string.

Lemma chat_store_other request (store : Store) sid' :
  sid' ≠ session_id request →
  (chat chain request store).2 !! sid' = store !! sid'.
Proof.
  intros Hne. unfold chat, chain_with_history_invoke, get_session_history.
  destruct (store !! session_id request) as [h|] eqn:E; simpl;
    destruct (chain _ _) as [out|e]; simpl;
    rewrite ?lookup_insert_ne by done; done.
Qed.

Lemma get_history_store sid (store : Store) :
  (get_history sid store).2 = store.
Proof. unfold get_history. by destruct (store !! sid). Qed.

Lemma clear_history_other sid sid' (store : Store) :
  sid' ≠ sid → (clear_history sid store).2 !! sid' = store !! sid'.
Proof.
  intros Hne. unfold clear_history. destruct (store !! sid); simpl; [|done].
  by rewrite lookup_insert_ne.
Qed.

Lemma chat_store_self request (store : Store) :
  (chat chain request store).2 !! session_id request
  = Some (default [] (store !! session_id request)
          ++ match chain (default [] (store !! session_id request))
                     (message request) with
             | Returned out => turn (message request, out)
             | Raised _ => []
             end).
Proof.
  unfold chat, chain_with_history_invoke, get_session_history.
  destruct (store !! session_id request) as [h|] eqn:E; simpl;
    destruct (chain _ _) as [out|e]; simpl;
    rewrite ?lookup_insert_eq, ?app_nil_r; done.
Qed.

(** X1: when the model answers [out] on the stored history and the input,
    the reply is [out], the session's history grows by exactly the human
    message and the answer, and no other session changes. *)
Theorem chat_success request (store : Store) out :
  chain (default [] (store !! session_id request)) (message request)
  = Returned out →
  (chat chain request store).1 = Returned {| reply := out |}
  ∧ (chat chain request store).2 !! session_id request
    = Some (default [] (store !! session_id request)
            ++ [ {| msg_class := HumanMessage; content := message request |};
                 {| msg_class := AIMessage; content := out |} ])
  ∧ ∀ sid', sid' ≠ session_id request →
      (chat chain request store).2 !! sid' = store !! sid'.
Proof.
  intros H. split; [|split].
  - unfold chat, chain_with_history_invoke, get_session_history.
    destruct (store !! session_id request) as [h|] eqn:E; simpl in *;
      by rewrite H.
  - by rewrite chat_store_self, H.
  - intros sid'. apply chat_store_other.
Qed.

(** X2: when the model call raises, no stored message changes, but the
    session id is in the store afterwards: a failed first post to a new id
    creates the session, and its history request answers with a count of
    zero instead of "Session not found". *)
Theorem chat_failure_creates_session request (store : Store) e :
  chain (default [] (store !! session_id request)) (message request)
  = Raised e →
  (chat chain request store).2 !! session_id request
  = Some (default [] (store !! session_id request))
  ∧ (∀ sid', sid' ≠ session_id request →
       (chat chain request store).2 !! sid' = store !! sid')
  ∧ (store !! session_id request = None →
     (get_history (session_id request) (chat chain request store).2).1
     = JDict [("session_id", JStr (session_id request));
              ("message_count", JInt 0); ("messages", JList [])]).
Proof.
  intros H.
  assert ((chat chain request store).2 !! session_id request
          = Some (default [] (store !! session_id request))) as Hs.
  { by rewrite chat_store_self, H, app_nil_r. }
  split; [done|]. split; [intros sid'; apply chat_store_other|].
  intros Hn. unfold get_history. rewrite Hs, Hn. done.
Qed.

Lemma handle_dom r (store : Store) : dom store ⊆ dom (handle chain r store).2.
Proof.
  intros sid Hin. apply elem_of_dom in Hin as [h Hh]. apply elem_of_dom.
  destruct r as [| |request|sid0|sid0]; simpl; eauto.
  - destruct (decide (sid = session_id request)) as [->|Hne].
    + rewrite chat_store_self. eauto.
    + rewrite chat_store_other by done. eauto.
  - unfold clear_history. destruct (store !! sid0) eqn:E; simpl; [|eauto].
    destruct (decide (sid = sid0)) as [->|Hne].
    + rewrite lookup_insert_eq. eauto.
    + rewrite lookup_insert_ne by done. eauto.
  - rewrite get_history_store. eauto.
Qed.

(** X3: no request removes a session: whatever requests are served, every
    session id of the store is still in it afterwards (clearing empties a
    history and keeps the id). *)
Theorem serve_keeps_sessions rs (store : Store) :
  dom store ⊆ dom (serve chain rs store).2.
Proof.
  revert store. induction rs as [|r rs IH]; intros store; simpl; [done|].
  etrans; [apply (handle_dom r)|]. apply IH.
Qed.

Lemma paired_nil : paired [].
Proof. by exists []. Qed.

Lemma paired_turn h t : paired h → paired (h ++ turn t).
Proof.
  intros [turns ->]. exists (turns ++ [t]).
  rewrite fmap_app, concat_app. by simpl.
Qed.

Lemma handle_paired r (store : Store) :
  map_Forall (λ _, paired) store →
  map_Forall (λ _, paired) (handle chain r store).2.
Proof.
  intros Hst sid h.
  assert (paired (default [] (store !! sid))) as Hd.
  { destruct (store !! sid) as [h0|] eqn:E; simpl;
      [by eapply Hst | apply paired_nil]. }
  destruct r as [| |request|sid0|sid0]; simpl; try apply Hst.
  - destruct (decide (sid = session_id request)) as [->|Hne].
    + rewrite chat_store_self. intros [= <-].
      destruct (chain _ _); [by apply paired_turn | by rewrite app_nil_r].
    + rewrite chat_store_other by done. apply Hst.
  - unfold clear_history. destruct (store !! sid0) eqn:E; simpl; [|apply Hst].
    destruct (decide (sid = sid0)) as [->|Hne].
    + rewrite lookup_insert_eq. intros [= <-]. apply paired_nil.
    + rewrite lookup_insert_ne by done. apply Hst.
  - rewrite get_history_store. apply Hst.
Qed.

Lemma serve_paired rs : ∀ store : Store,
  map_Forall (λ _, paired) store →
  map_Forall (λ _, paired) (serve chain rs store).2.
Proof.
  induction rs as [|r rs IH]; intros store Hst; simpl; [done|].
  by apply IH, handle_paired.
Qed.

(** X4: from the empty store the service starts with, after any requests
    every history consists of whole exchanges, a human message followed by
    its answer; a failed call never leaves a human message without one. *)
Theorem serve_histories_paired rs :
  map_Forall (λ _, paired) (serve chain rs ∅).2.
Proof. apply serve_paired. intros sid h. by rewrite lookup_empty. Qed.

(** X5: clearing is idempotent: a second [DELETE] of the same id gives the
    response and the store of the first, so a cleared session still answers
    "History cleared", never "Session not found". *)
Theorem clear_history_idempotent sid (store : Store) :
  clear_history sid (clear_history sid store).2 = clear_history sid store.
Proof.
  unfold clear_history. destruct (store !! sid) as [h|] eqn:E; simpl.
  - rewrite lookup_insert_eq. simpl. by rewrite insert_insert_eq.
  - by rewrite E.
Qed.

(** X6: after a session is cleared, the next post hands the model an empty
    history, and the session then holds that one exchange only. *)
Theorem chat_after_clear sid input out (store : Store) :
  is_Some (store !! sid) →
  chain [] input = Returned out →
  (chat chain {| session_id := sid; message := input |}
     (clear_history sid store).2).2 !! sid
  = Some [ {| msg_class := HumanMessage; content := input |};
           {| msg_class := AIMessage; content := out |} ].
Proof.
  intros [h Hh] Hc.
  pose proof (chat_store_self {| session_id := sid; message := input |}
                (clear_history sid store).2) as H.
  simpl in H. rewrite H. unfold clear_history. rewrite Hh. simpl.
  rewrite lookup_insert_eq. simpl. unfold clear. by rewrite Hc.
Qed.


Lemma handle_other r (store : Store) sid :
  target r ≠ Some sid → (handle chain r store).2 !! sid = store !! sid.
Proof.
  destruct r as [| |request|sid0|sid0]; simpl; intros Hne; try done.
  - apply chat_store_other. congruence.
  - apply clear_history_other. congruence.
  - by rewrite get_history_store.
Qed.

(** X15: sessions are isolated: requests that name other sessions, however
    many and of whatever kind, leave a session's history as it was (and
    leave an unknown session unknown). *)
Theorem serve_other_sessions rs (store : Store) sid :
  Forall (λ r, target r ≠ Some sid) rs →
  (serve chain rs store).2 !! sid = store !! sid.
Proof.
  intros Hrs. revert store.
  induction Hrs as [|r rs Hr _ IH]; intros store; simpl; [done|].
  rewrite IH. by apply handle_other.
Qed.

End ChatMore.

Lemma serve_other_sessions_witness :
  (Chat.serve Chat.chain_echo
     [Chat.POST_chat {| Chat.session_id := "a"; Chat.message := "hi" |};
      Chat.DELETE_chat "a"; Chat.GET_health; Chat.GET_history "c"]
     (<["b" := Chat.turn ("x", "y")]> ∅)).2 !! "b"
  = (<["b" := Chat.turn ("x", "y")]> ∅ : Chat.Store) !! "b".
Proof.
  apply (serve_other_sessions Chat.chain_echo).
  repeat (apply Forall_cons_2; [discriminate|]). apply Forall_nil_2.
Defined.

Lemma chat_success_witness :
  (Chat.chat Chat.chain_echo
     {| Chat.session_id := "s"; Chat.message := "a" |} ∅).1
  = Returned {| Chat.reply := "echo a" |}.
Proof.
  apply (chat_success Chat.chain_echo
           {| Chat.session_id := "s"; Chat.message := "a" |} ∅ "echo a").
  reflexivity.
Defined.

Lemma chat_failure_creates_session_witness :
  (Chat.get_history "s"
     (Chat.chat (Chat.chain_failing_on "a")
        {| Chat.session_id := "s"; Chat.message := "a" |} ∅).2).1
  = JDict [("session_id", JStr "s"); ("message_count", JInt 0);
           ("messages", JList [])].
Proof.
  apply (chat_failure_creates_session (Chat.chain_failing_on "a")
           {| Chat.session_id := "s"; Chat.message := "a" |} ∅
           (Exc "APIConnectionError" "Connection error.")); reflexivity.
Defined.

Lemma chat_after_clear_witness :
  (Chat.chat Chat.chain_echo {| Chat.session_id := "s"; Chat.message := "b" |}
     (Chat.clear_history "s"
        (<["s" := Chat.turn ("a", "echo a")]> ∅)).2).2 !! "s"
  = Some [ {| Chat.msg_class := Chat.HumanMessage; Chat.content := "b" |};
           {| Chat.msg_class := Chat.AIMessage; Chat.content := "echo b" |} ].
Proof.
  apply (chat_after_clear Chat.chain_echo "s" "b" "echo b"
           (<["s" := Chat.turn ("a", "echo a")]> ∅)); [|reflexivity].
  rewrite lookup_insert_eq. by eexists.
Defined.

(** ** The key after start-up *)

Section StartupMore.
Import Startup.

(** X8: once [db-agent.py] has passed its start-up check, [getAPIKey]
    returns the key the module read; its [ValueError] cannot occur. *)
Theorem getAPIKey_after_startup (dotenv environ : Environ) service :
  db_agent_py dotenv environ = Returned service →
  getAPIKey (getenv (load_dotenv dotenv environ) "OPENAI_API_KEY")
  = Returned (api_key_used service).
Proof.
  unfold db_agent_py, getAPIKey.
  destruct (not_ _); [discriminate|]. by intros [= <-].
Qed.

Lemma getAPIKey_after_startup_witness :
  getAPIKey (getenv (load_dotenv {["OPENAI_API_KEY" := "sk-test"]} ∅)
               "OPENAI_API_KEY")
  = Returned "sk-test".
Proof.
  apply (getAPIKey_after_startup {["OPENAI_API_KEY" := "sk-test"]} ∅
           {| api_key_used := "sk-test";
              created := ["llm"; "db"; "toolkit"; "tools"; "agent"] |}).
  reflexivity.
Defined.

End StartupMore.

(** ** Outcomes and sizes: rules *)

Section OutcomeRules.
Import Seed.
Local Open Scope M_scope.
Local Open Scope nat_scope.

Variable rng : nat → nat.
Variable faker : string → nat → string.

Lemma hoare_bind {A B} P (m : M A) (k : A → M B) Q1 Q E :
  hoare P m Q1 E → (∀ a, hoare (Q1 a) (k a) Q E) → hoare P (bind m k) Q E.
Proof.
  intros Hm Hk s Hs. unfold bind. specialize (Hm s Hs).
  destruct (m s) as [[a|e] s']; [|done]. by apply Hk.
Qed.

Lemma hoare_pure {A B} P (m : M A) (k : A → M B) R X Q E :
  pure_op m R X →
  (∀ e d p, X e → P d p → E e d) →
  (∀ a, R a → hoare P (k a) Q E) →
  hoare P (bind m k) Q E.
Proof.
  intros Hm HX Hk s Hs. unfold bind. specialize (Hm s).
  destruct (m s) as [[a|e] s']; destruct Hm as (Ha & Hd & Hp).
  - apply Hk; [done|]. by rewrite Hd, Hp.
  - rewrite Hd. by eapply HX.
Qed.

Lemma hoare_pure_last {A} P (m : M A) R X Q E :
  pure_op m R X →
  (∀ e d p, X e → P d p → E e d) →
  (∀ a d p, R a → P d p → Q a d p) →
  hoare P m Q E.
Proof.
  intros Hm HX HQ s Hs. specialize (Hm s).
  destruct (m s) as [[a|e] s']; destruct Hm as (Ha & Hd & Hp);
    rewrite Hd, ?Hp; eauto.
Qed.

Lemma hoare_ret {A} (P : Database → list Row → Prop) (a : A) Q E :
  (∀ d p, P d p → Q a d p) → hoare P (ret a) Q E.
Proof. intros HQ s Hs. by apply HQ. Qed.

Lemma hoare_post {A} P (m : M A) Q Q' E :
  hoare P m Q E → (∀ a d p, Q a d p → Q' a d p) → hoare P m Q' E.
Proof.
  intros Hm HQ s Hs. specialize (Hm s Hs).
  destruct (m s) as [[a|e] s']; [by apply HQ | done].
Qed.

Lemma hoare_pre {A} (P P' : Database → list Row → Prop) (m : M A) Q E :
  (∀ d p, P d p → P' d p) → hoare P' m Q E → hoare P m Q E.
Proof. intros HP Hm s Hs. apply Hm. by apply HP. Qed.

Lemma hoare_for_each_from {A} (I : nat → Database → list Row → Prop)
    (l : list A) body E : ∀ j,
  (∀ i x, l !! i = Some x → hoare (I (j + i)) (body x) (λ _, I (S (j + i))) E) →
  hoare (I j) (for_each l body) (λ _, I (j + length l)) E.
Proof.
  induction l as [|x l IH]; intros j Hb; simpl.
  - apply hoare_ret. intros d p. by rewrite Nat.add_0_r.
  - eapply hoare_bind.
    + specialize (Hb 0 x eq_refl). rewrite Nat.add_0_r in Hb. exact Hb.
    + intros []. eapply hoare_post.
      * apply (IH (S j)). intros i y Hy. specialize (Hb (S i) y Hy).
        by rewrite Nat.add_succ_r in Hb.
      * intros [] d p. by rewrite Nat.add_succ_r.
Qed.

(** A loop with an invariant indexed by the number of iterations done. *)
Lemma hoare_for_each {A} (I : nat → Database → list Row → Prop)
    (l : list A) body E :
  (∀ i x, l !! i = Some x → hoare (I i) (body x) (λ _, I (S i)) E) →
  hoare (I 0) (for_each l body) (λ _, I (length l)) E.
Proof. intros Hb. by apply (hoare_for_each_from I l body E 0). Qed.

Lemma pure_ret {A} (a : A) (R : A → Prop) X : R a → pure_op (ret a) R X.
Proof. intros Ha s. by simpl. Qed.

Lemma pure_raise {A} e (R : A → Prop) (X : Exception → Prop) :
  X e → pure_op (raise e) R X.
Proof. intros He s. by simpl. Qed.

Lemma pure_bind {A B} (m : M A) (k : A → M B) R1 R2 X :
  pure_op m R1 X → (∀ a, R1 a → pure_op (k a) R2 X) →
  pure_op (bind m k) R2 X.
Proof.
  intros Hm Hk s. unfold bind. specialize (Hm s).
  destruct (m s) as [[a|e] s']; destruct Hm as (Ha & Hd & Hp); [|done].
  specialize (Hk a Ha s'). destruct (k a s') as [[b|e] s''];
    destruct Hk as (Hb & Hd' & Hp'); by rewrite Hd', Hp'.
Qed.

Lemma pure_weaken {A} (m : M A) (R R' : A → Prop) X :
  pure_op m R X → (∀ a, R a → R' a) → pure_op m R' X.
Proof.
  intros Hm HR s. specialize (Hm s).
  destruct (m s) as [[a|e] s']; destruct Hm as (Ha & Hd & Hp); auto.
Qed.

Lemma pure_draw X : pure_op (draw rng) (λ _, True) X.
Proof. intros s. by simpl. Qed.

Lemma pure_fake provider X :
  pure_op (fake rng faker provider) (λ _, True) X.
Proof.
  eapply pure_bind; [apply pure_draw|]. intros n _. by apply pure_ret.
Qed.

Lemma pure_randint a b X :
  (a ≤ b)%Z → pure_op (randint rng a b) (λ x, (a ≤ x ≤ b)%Z) X.
Proof.
  intros Hab. eapply pure_bind; [apply pure_draw|]. intros n _.
  apply pure_ret.
  pose proof (Z.mod_pos_bound (Z.of_nat n) (b - a + 1)). lia.
Qed.

Lemma pure_uniform_round2 a b X :
  (a ≤ b)%Z →
  pure_op (uniform_round2 rng a b) (λ x, (100 * a ≤ x ≤ 100 * b)%Z) X.
Proof. intros Hab. apply pure_randint. lia. Qed.

Lemma pure_random_gt p X : pure_op (random_gt rng p) (λ _, True) X.
Proof.
  eapply pure_bind; [apply pure_draw|]. intros n _. by apply pure_ret.
Qed.

Lemma pure_if_random_gt {A} p (x : M A) R X :
  pure_op x R X →
  pure_op (if_random_gt rng p x) (λ o, ∀ a, o = Some a → R a) X.
Proof.
  intros Hx. eapply pure_bind; [apply pure_random_gt|].
  intros [|] _; [|by apply pure_ret].
  eapply pure_bind; [exact Hx|]. intros a Ha. apply pure_ret.
  by intros a' [= <-].
Qed.

Lemma pure_choice {A} (l : list A) (X : Exception → Prop) :
  (l = [] → X (IndexError "Cannot choose from an empty sequence")) →
  pure_op (choice rng l) (λ a, a ∈ l) X.
Proof.
  intros HX. destruct l as [|x l]; [by apply pure_raise, HX|].
  unfold choice. eapply pure_bind; [apply pure_draw|]. intros n _.
  destruct (_ !! _) as [y|] eqn:E.
  - apply pure_ret. by eapply list_elem_of_lookup_2.
  - apply lookup_ge_None in E.
    pose proof (Nat.mod_upper_bound n (length (x :: l))). simpl in *. lia.
Qed.

Lemma pure_sample_from {A} k X : ∀ l : list A,
  k ≤ length l →
  pure_op (sample_from rng k l) (λ xs, length xs = k ∧ xs ⊆ l) X.
Proof.
  induction k as [|k IH]; intros l Hk; simpl.
  - apply pure_ret. split; [done|]. set_solver.
  - eapply pure_bind; [apply pure_draw|]. intros n _.
    destruct (l !! _) as [x|] eqn:E.
    + eapply pure_bind.
      * apply IH. rewrite length_delete by eauto. lia.
      * intros xs [Hlen Hsub]. apply pure_ret. split; [simpl; lia|].
        intros y [->|Hy]%elem_of_cons.
        -- by eapply list_elem_of_lookup_2.
        -- eapply list_elem_of_delete_inv. by apply Hsub.
    + apply lookup_ge_None in E.
      pose proof (Nat.mod_upper_bound n (length l)). lia.
Qed.

Lemma pure_sample {A} (l : list A) k (X : Exception → Prop) :
  (length l < k →
   X (ValueError "Sample larger than population or is negative")) →
  pure_op (sample rng l k)
    (λ xs, length xs = k ∧ xs ⊆ l ∧ k ≤ length l) X.
Proof.
  intros HX. unfold sample. case_decide.
  - by apply pure_raise, HX.
  - eapply pure_weaken; [apply pure_sample_from; lia|].
    intros xs [? ?]. repeat split; [done..|lia].
Qed.

Lemma pure_index_mod_len {A} (l : list A) i (X : Exception → Prop) :
  (l = [] → X (ZeroDivisionError "integer modulo by zero")) →
  pure_op (index_mod_len l i) (λ a, a ∈ l) X.
Proof.
  intros HX. unfold index_mod_len.
  destruct (length l) as [|n] eqn:El.
  - apply pure_raise, HX. by apply length_zero_iff_nil.
  - destruct (_ !! _) as [y|] eqn:E.
    + apply pure_ret. by eapply list_elem_of_lookup_2.
    + apply lookup_ge_None in E.
      pose proof (Nat.mod_upper_bound i (S n)). lia.
Qed.

Lemma pure_collect_rows {A} (l : list A) (body : A → M (list Row)) T c
    (φ : Prop) X :
  (∀ x, x ∈ l →
     pure_op (body x)
       (λ ys, length ys = c ∧ Forall (at_table T) ys ∧ φ) X) →
  pure_op (collect l body)
    (λ ys, length ys = c * length l ∧ Forall (at_table T) ys
           ∧ (l ≠ [] → φ)) X.
Proof.
  induction l as [|x l IH]; intros Hb; simpl.
  - apply pure_ret. split; [simpl length; lia|].
    split; [apply Forall_nil_2 | done].
  - eapply pure_bind; [apply Hb; by left|]. intros ys (Hlen & Hys & Hφ).
    eapply pure_bind; [apply IH; intros y Hy; apply Hb; by right|].
    intros zs (Hlz & Hzs & _). apply pure_ret.
    split; [rewrite length_app; simpl length; lia|].
    split; [by apply Forall_app_2|done].
Qed.

Lemma pure_collect {A B} (l : list A) (body : A → M (list B))
    (R : A → list B → Prop) X :
  (∀ x, x ∈ l → pure_op (body x) (R x) X) →
  pure_op (collect l body)
    (λ ys, ∃ yss, ys = concat yss ∧ Forall2 R l yss) X.
Proof.
  induction l as [|x l IH]; intros Hb; simpl.
  - apply pure_ret. exists []. by split; [|constructor].
  - eapply pure_bind; [apply Hb; by left|]. intros ys Hys.
    eapply pure_bind; [apply IH; intros y Hy; apply Hb; by right|].
    intros zs (yss & -> & Hzs). apply pure_ret.
    exists (ys :: yss). by split; [|constructor].
Qed.

End OutcomeRules.

(** ** Outcomes and sizes: the session *)

Section SizeRules.
Import Seed.
Local Open Scope M_scope.
Local Open Scope nat_scope.

Lemma insert_row_size d r :
  (∀ t, is_Some (d t)) →
  ∃ d' k, insert_row d r = Some (d', k)
    ∧ (∀ t, is_Some (d' t))
    ∧ ∀ t, size d' t = size d t + (if decide (t = table_of r) then 1 else 0).
Proof.
  intros Hd. unfold insert_row.
  destruct (Hd (table_of r)) as [td Htd]. rewrite Htd. simpl.
  eexists _, _. split; [done|]. split.
  - intros t. destruct (decide (t = table_of r)) as [->|Hne].
    + rewrite fn_lookup_insert. eauto.
    + rewrite fn_lookup_insert_ne by done. apply Hd.
  - intros t. unfold size, table_contents.
    destruct (decide (t = table_of r)) as [->|Hne].
    + rewrite fn_lookup_insert, Htd. simpl. by rewrite length_app.
    + rewrite fn_lookup_insert_ne by done. lia.
Qed.

(** On a database with all its tables, a flush of rows of one table
    succeeds, returns the rows with their keys and grows that table only. *)
Lemma flush_size T rs : ∀ d,
  (∀ t, is_Some (d t)) → Forall (at_table T) rs →
  ∃ d' objs, flush d rs = Some (d', objs)
    ∧ objs.*2 = rs
    ∧ (∀ t, is_Some (d' t))
    ∧ ∀ t, size d' t
           = size d t + (if decide (t = T) then length rs else 0).
Proof.
  induction rs as [|r rs IH]; intros d Hd Hrs; simpl.
  - exists d, []. repeat split; [done|]. intros t. case_decide; lia.
  - inversion Hrs as [|? ? Hr Hrs']; subst.
    destruct (insert_row_size d r Hd) as (d1 & k & -> & Hd1 & Hs1). simpl.
    destruct (IH d1 Hd1 Hrs') as (d2 & objs & -> & Ho & Hd2 & Hs2). simpl.
    eexists _, _. split; [done|]. split; [simpl; by f_equal|].
    split; [done|]. intros t. rewrite Hs2, Hs1. unfold at_table in Hr.
    rewrite Hr. case_decide; lia.
Qed.

Section WithE.
Variable E : Exception → Database → Prop.

Lemma holding_sized T flo fhi d p :
  holding [] flo fhi d p → sized T 0 0 flo fhi d p.
Proof.
  intros (-> & Hd & Hs). split; [done|]. split; [apply Forall_nil_2|].
  intros t. specialize (Hs t). unfold bump. simpl. case_decide; lia.
Qed.

Lemma sized_weaken T lo hi lo' hi' flo fhi d p :
  lo' ≤ lo → hi ≤ hi' →
  sized T lo hi flo fhi d p → sized T lo' hi' flo fhi d p.
Proof.
  intros Hlo Hhi (Hd & Hp & Hs). split; [done|]. split; [done|].
  intros t. specialize (Hs t). unfold bump in *. case_decide; lia.
Qed.

Lemma sized_add T lo hi flo fhi r :
  at_table T r →
  hoare (sized T lo hi flo fhi) (session_add r)
    (λ _, sized T (S lo) (S hi) flo fhi) E.
Proof.
  intros Hr s (Hd & Hp & Hs). simpl. split; [done|]. split.
  { apply Forall_app_2; [done|]. by apply Forall_cons_2. }
  intros t. specialize (Hs t). unfold bump in *.
  rewrite length_app. simpl. case_decide; lia.
Qed.

Lemma sized_commit_keep T lo hi flo fhi :
  hoare (sized T lo hi flo fhi) session_commit
    (λ _, sized T lo hi flo fhi) E.
Proof.
  intros s (Hd & Hp & Hs). unfold session_commit.
  destruct (flush_size T (pending s) (database s) Hd Hp)
    as (d' & objs & -> & Ho & Hd' & Hs'). simpl.
  split; [done|]. split; [apply Forall_nil_2|].
  intros t. specialize (Hs t). rewrite Hs'. simpl. case_decide; lia.
Qed.

Lemma sized_commit T lo hi flo fhi :
  hoare (sized T lo hi flo fhi) session_commit
    (λ _, holding [] (bump T lo flo) (bump T hi fhi)) E.
Proof.
  intros s (Hd & Hp & Hs). unfold session_commit.
  destruct (flush_size T (pending s) (database s) Hd Hp)
    as (d' & objs & -> & Ho & Hd' & Hs'). simpl.
  split; [done|]. split; [done|].
  intros t. specialize (Hs t). rewrite Hs'. case_decide; lia.
Qed.

Lemma holding_add_all rs flo fhi :
  hoare (holding [] flo fhi) (session_add_all rs)
    (λ _, holding rs flo fhi) E.
Proof. intros s (Hp & Hd & Hs). simpl. rewrite Hp. by split. Qed.

Lemma holding_commit T rs flo fhi :
  Forall (at_table T) rs →
  hoare (holding rs flo fhi) session_commit
    (λ objs d p,
       objs.*2 = rs
       ∧ holding [] (bump T (length rs) flo) (bump T (length rs) fhi) d p) E.
Proof.
  intros Hrs s (Hp & Hd & Hs). unfold session_commit. rewrite Hp.
  destruct (flush_size T rs (database s) Hd Hrs)
    as (d' & objs & -> & Ho & Hd' & Hs'). simpl.
  split; [done|]. split; [done|]. split; [done|].
  intros t. specialize (Hs t). rewrite Hs'. unfold bump. case_decide; lia.
Qed.

Lemma holding_bounds rs flo fhi flo' fhi' d p :
  (∀ t, flo' t ≤ flo t) → (∀ t, fhi t ≤ fhi' t) →
  holding rs flo fhi d p → holding rs flo' fhi' d p.
Proof.
  intros Hlo Hhi (Hp & Hd & Hs). split; [done|]. split; [done|].
  intros t. specialize (Hs t). specialize (Hlo t). specialize (Hhi t). lia.
Qed.

Lemma bump_at T n f : bump T n f T = f T + n.
Proof. unfold bump. by rewrite decide_True. Qed.

Lemma bump_other T n f t : t ≠ T → bump T n f t = f t.
Proof. intros H. unfold bump. by rewrite decide_False. Qed.

(** A pure fact of the precondition. *)
Lemma hoare_fact {A} (φ : Prop) P (m : M A) Q :
  (φ → hoare P m Q E) → hoare (λ d p, φ ∧ P d p) m Q E.
Proof. intros H s [Hφ Hs]. by apply H. Qed.

(** A loop each of whose iterations adds [a] to [b] rows. *)
Lemma sized_for_each {A} T a b lo hi flo fhi (l : list A) body :
  (∀ x, x ∈ l → ∀ lo hi,
     hoare (sized T lo hi flo fhi) (body x)
       (λ _, sized T (a + lo) (b + hi) flo fhi) E) →
  hoare (sized T lo hi flo fhi) (for_each l body)
    (λ _, sized T (a * length l + lo) (b * length l + hi) flo fhi) E.
Proof.
  intros Hb.
  pose proof (hoare_for_each
                (λ i, sized T (a * i + lo) (b * i + hi) flo fhi) l body E)
    as H.
  eapply hoare_pre; [|apply H].
  - intros d p. by rewrite !Nat.mul_0_r.
  - intros i x Hx. eapply hoare_post.
    + apply Hb. by eapply list_elem_of_lookup_2.
    + intros [] d p. apply sized_weaken; lia.
Qed.

End WithE.
End SizeRules.

(** ** Outcomes and sizes: the generator *)

Section Outcomes.
Import Seed.
Local Open Scope M_scope.
Local Open Scope nat_scope.

Variable rng : nat → nat.
Variable faker : string → nat → string.
Variable today : date.
Variables n1 n2 n3 n4 n5 n6 : nat.

Local Abbreviation X := (raises_as n1 n2 n3 n4 n6).
Local Abbreviation E := (λ (e : Exception) (_ : Database), raises_as n1 n2 n3 n4 n6 e).
Local Abbreviation min_rows := (min_rows n1 n2 n3 n4 n5 n6).
Local Abbreviation max_rows := (max_rows n1 n2 n3 n4 n5 n6).

Lemma range_nonempty n : range n ≠ [] ↔ 0 < n.
Proof. unfold range. destruct n; simpl; split; (done || lia). Qed.

Lemma elem_of_range i n : i ∈ range n → 0 < n.
Proof. unfold range. intros H%elem_of_seq. lia. Qed.

Ltac fail_tac :=
  intros;
  repeat match goal with
         | H : _ ∈ range _ |- _ => apply elem_of_range in H
         | H : range _ !! _ = Some _ |- _ =>
             apply list_elem_of_lookup_2, elem_of_range in H
         | H : ?l = [] |- _ => apply (f_equal length) in H; simpl in H
         | H : _ ∧ _ |- _ => destruct H
         end;
  unfold raises_as, expected_failure; simpl;
  repeat case_decide; first [done | exfalso; lia].

Ltac side := try first [solve [intros; discriminate] | solve [fail_tac]].

Ltac pure_body :=
  lazymatch goal with
  | |- pure_op (bind _ _) _ _ =>
      eapply pure_bind; [pure_body | intros; cbv beta in *; pure_body]
  | |- pure_op (ret _) ?R _ =>
      tryif is_evar R
      then (apply (pure_ret _ (λ _, True)); exact I)
      else (apply pure_ret)
  | |- pure_op (draw _) _ _ => apply pure_draw
  | |- pure_op (fake _ _ _) _ _ => apply pure_fake
  | |- pure_op (randint _ _ _) _ _ => apply pure_randint; lia
  | |- pure_op (uniform_round2 _ _ _) _ _ => apply pure_uniform_round2; lia
  | |- pure_op (random_gt _ _) _ _ => apply pure_random_gt
  | |- pure_op (choice _ _) _ _ => apply pure_choice; side
  | |- pure_op (sample _ _ _) _ _ => apply pure_sample; side
  | |- pure_op (index_mod_len _ _) _ _ => apply pure_index_mod_len; side
  | |- pure_op (if_random_gt _ _ _) _ _ =>
      eapply pure_if_random_gt; pure_body
  end.

Ltac arith :=
  repeat match goal with H : _ ∧ _ |- _ => destruct H end;
  unfold range in *; rewrite ?length_seq in *; simpl length in *; try lia.

Ltac sized_body :=
  lazymatch goal with
  | |- hoare _ (bind session_commit _) _ _ =>
      eapply hoare_bind; [apply sized_commit_keep | intros ?; sized_body]
  | |- hoare _ (bind (session_add _) _) _ _ =>
      eapply hoare_bind; [apply sized_add; reflexivity | intros []; sized_body]
  | |- hoare _ (bind _ _) _ _ =>
      eapply (hoare_pure _ _ _ _ X);
        [pure_body | (by intros ? ? ? ? ?) | intros; cbv beta in *; sized_body]
  | |- hoare _ (session_add _) _ _ =>
      eapply hoare_post;
        [apply sized_add; reflexivity
        | intros [] ? ?; apply sized_weaken; arith]
  | |- hoare _ (ret _) _ _ =>
      apply hoare_ret; intros ? ?; apply sized_weaken; arith
  | |- hoare _ (if decide _ then _ else _) _ _ =>
      case_decide; sized_body
  | |- hoare _ (for_each _ _) _ _ =>
      eapply hoare_post;
        [apply (sized_for_each E _ 1 1); intros; sized_body
        | intros [] ? ?; apply sized_weaken; arith]
  end.

(** A stage that fills table [T] by a loop adding [a] to [b] rows per
    element, then commits. *)
Ltac stage T a b :=
  eapply (hoare_pre _ (sized T 0 0 _ _)); [intros ? ?; apply holding_sized|];
  eapply hoare_bind;
    [apply (sized_for_each E T a b); intros; sized_body
    | intros []; eapply hoare_bind; [apply sized_commit | intros ?]].

Ltac persist T objs H :=
  eapply hoare_bind; [apply holding_add_all | intros []];
  eapply hoare_bind; [apply (holding_commit E T); assumption|];
  intros objs; apply hoare_fact; intros H;
  apply (f_equal length) in H; rewrite length_fmap in H.

Lemma nonempty_length {A} (l : list A) x : x ∈ l → 0 < length l.
Proof. destruct l; [by intros ?%elem_of_nil | simpl; lia]. Qed.

Lemma enumerate_lookup {A} (l : list A) i idx x :
  enumerate l !! i = Some (idx, x) → idx = i.
Proof.
  unfold enumerate. intros H. apply lookup_zip_with_Some in H
    as (a & b & [= <- <-] & Ha & Hb).
  apply lookup_seq in Ha. lia.
Qed.

Lemma length_enumerate {A} (l : list A) : length (enumerate l) = length l.
Proof. unfold enumerate. rewrite length_zip, length_seq. lia. Qed.

Lemma generate_sample_data_outcome :
  hoare (holding [] (λ _, 0) (λ _, 0))
    (generate_sample_data rng faker today n1 n2 n3 n4 n5 n6)
    (λ _ d p,
       expected_failure n1 n2 n3 n4 n6 = None
       ∧ holding []
           (λ t, if decide (t = tbl_kpi_catalog) then 0 else min_rows t)
           (λ t, if decide (t = tbl_kpi_catalog) then 0 else max_rows t)
           d p) E.
Proof.
  unfold generate_sample_data.
  (* Companies *)
  eapply (hoare_pure _ _ _ _ X); [|by intros ? ? ? ? ?|].
  { apply pure_collect_rows with (T := tbl_companies) (c := 1) (φ := True).
    intros; pure_body. by repeat constructor. }
  intros companies0 (Hlen0 & Hrows0 & _).
  persist tbl_companies companies Hcompanies.
  assert (length companies = n1) as Hlen_companies by arith.
  (* Company Revenue *)
  stage tbl_company_revenue n5 n5.
  (* Clients *)
  eapply (hoare_pure _ _ _ _ X); [|by intros ? ? ? ? ?|].
  { apply pure_collect_rows with (T := tbl_clients) (c := n2) (φ := True).
    intros c Hc. eapply pure_weaken.
    - apply pure_collect_rows with (T := tbl_clients) (c := 1) (φ := True).
      intros; pure_body. by repeat constructor.
    - intros ys (Hl & Hf & _). split; [arith|]. by split. }
  intros clients0 (Hlen1 & Hrows1 & _).
  persist tbl_clients clients Hclients.
  assert (length clients = n2 * n1) as Hlen_clients by (arith; nia).
  assert (0 < length clients ↔ 0 < n2 ∧ 0 < n1) as Hpos_clients
    by (rewrite Hlen_clients; nia).
  (* Project Categories *)
  cbv zeta.
  assert (Forall (at_table tbl_project_categories)
            ((λ ct, ProjectCategory ct (ct +:+ " projects"))
               <$> ["Web"; "Mobile"; "AI/ML"; "Cloud"])) as Hrows_cat
    by (cbn [fmap list_fmap]; by repeat constructor).
  persist tbl_project_categories categories Hcategories.
  cbn [fmap list_fmap length] in Hcategories.
  (* Projects *)
  eapply (hoare_pure _ _ _ _ X); [|by intros ? ? ? ? ?|].
  { apply pure_collect_rows with
      (T := tbl_projects) (c := 1) (φ := 0 < length clients).
    intros; pure_body.
    split; [done|]. split; [by repeat constructor|].
    by eapply nonempty_length. }
  intros projects0 (Hlen2 & Hrows2 & Hφ2).
  persist tbl_projects projects Hprojects.
  assert (length projects = n3) as Hlen_projects by arith.
  assert (0 < n3 → 0 < n2 ∧ 0 < n1) as Hgood3.
  { intros ?. apply Hpos_clients.
    apply Hφ2. by apply range_nonempty. }
  (* Project Details *)
  stage tbl_project_details 1 1.
  (* Employees *)
  eapply (hoare_pure _ _ _ _ X); [|by intros ? ? ? ? ?|].
  { apply pure_collect_rows with
      (T := tbl_employees) (c := 1) (φ := 0 < length companies).
    intros; pure_body.
    split; [done|]. split; [by repeat constructor|].
    by eapply nonempty_length. }
  intros employees0 (Hlen3 & Hrows3 & Hφ3).
  persist tbl_employees employees Hemployees.
  assert (length employees = n4) as Hlen_employees by arith.
  assert (0 < n4 → 0 < n1) as Hgood4.
  { intros ?. rewrite <- Hlen_companies.
    apply Hφ3. by apply range_nonempty. }
  (* Team Members *)
  stage tbl_team_members (5 `min` n4) (5 `min` n4).
  (* Project Goals *)
  stage tbl_project_goals 2 5.
  (* Milestones *)
  stage tbl_milestones 2 2.
  (* Defects *)
  stage tbl_defects 0 3.
  (* Issues *)
  stage tbl_issues 0 2.
  (* Time Entries *)
  cbv beta.
  eapply (hoare_pre _ (sized tbl_time_entry 0 0 _ _));
    [intros ? ?; apply holding_sized|].
  eapply hoare_bind.
  { lazymatch goal with
    | |- hoare (sized ?T _ _ ?flo ?fhi) _ _ _ =>
        eapply hoare_pre;
          [|apply (hoare_for_each
                     (λ i d p, (0 < i → 0 < n3 ∧ 0 < n4)
                               ∧ sized T i i flo fhi d p))]
    end.
    { intros d p Hs. split; [lia | exact Hs]. }
    intros i x Hx. apply hoare_fact. intros Hi.
    eapply (hoare_pure _ _ _ _ X); [pure_body | (by intros ? ? ? ? ?) | intros proj Hproj].
    eapply (hoare_pure _ _ _ _ X); [pure_body | (by intros ? ? ? ? ?) | intros emp Hemp].
    apply nonempty_length in Hproj, Hemp.
    lazymatch goal with
    | |- hoare (sized ?T ?lo ?hi ?flo ?fhi) _ _ _ =>
        apply hoare_post with (Q := λ _, sized T (S lo) (S hi) flo fhi)
    end.
    - sized_body.
    - intros [] d p Hs. split; [lia | exact Hs]. }
  intros []. apply hoare_fact. intros Hgood6.
  unfold range in Hgood6. rewrite length_seq in Hgood6.
  unfold range at 1 2. rewrite length_seq.
  eapply hoare_bind; [apply sized_commit | intros ?; cbv beta].
  (* Project Cost *)
  stage tbl_project_cost 1 3.
  (* Employee Exits *)
  cbv zeta beta.
  pose proof (Nat.div_mod_eq n4 20) as Hdiv20.
  eapply (hoare_pure _ _ _ _ X); [pure_body | (by intros ? ? ? ? ?) | intros exit_sample Hexit].
  destruct Hexit as (Hlen_exit & _ & Hgood_exit).
  stage tbl_employee_exit 1 1.
  (* Hiring Pipeline *)
  stage tbl_hiring_pipeline 1 1.
  (* Training Attendance *)
  cbv beta.
  eapply (hoare_pre _ (sized tbl_training_attendance 0 0 _ _));
    [intros ? ?; apply holding_sized|].
  eapply hoare_bind.
  { lazymatch goal with
    | |- hoare (sized ?T _ _ ?flo ?fhi) _ _ _ =>
        apply (hoare_for_each
                 (λ i, sized T ((i + 2) / 3) ((i + 2) / 3) flo fhi))
    end.
    intros i [idx emp] Hx. apply enumerate_lookup in Hx as ->.
    cbv beta iota.
    pose proof (Nat.div_mod_eq (i + 2) 3).
    pose proof (Nat.div_mod_eq (S i + 2) 3).
    pose proof (Nat.div_mod_eq i 3).
    pose proof (Nat.mod_upper_bound (i + 2) 3).
    pose proof (Nat.mod_upper_bound (S i + 2) 3).
    pose proof (Nat.mod_upper_bound i 3).
    sized_body. }
  intros []. rewrite length_enumerate.
  eapply hoare_bind; [apply sized_commit | intros ?; cbv beta].
  apply hoare_ret. intros d p Hh. split.
  { unfold expected_failure. repeat case_decide; first [done | exfalso; lia]. }
  eapply holding_bounds; [| |exact Hh]; intros t; cbv beta;
    (destruct t;
     repeat first [rewrite bump_at | rewrite bump_other by discriminate];
     (case_decide as Hc; [try discriminate Hc | try congruence]);
     cbn [min_rows max_rows fmap list_fmap length];
     unfold range in *; rewrite ?length_seq in *;
     rewrite ?Hlen0, ?Hlen1, ?Hlen2, ?Hlen3, ?Hlen_companies, ?Hlen_projects,
       ?Hlen_employees, ?Hlen_exit; try lia).
Qed.

Lemma insert_kpi_catalog_sizes flo fhi :
  hoare (holding [] flo fhi) insert_kpi_catalog
    (λ _, holding [] (bump tbl_kpi_catalog 7 flo) (bump tbl_kpi_catalog 7 fhi))
    E.
Proof.
  unfold insert_kpi_catalog.
  eapply (hoare_pre _ (sized tbl_kpi_catalog 0 0 _ _));
    [intros ? ?; apply holding_sized|].
  eapply hoare_bind.
  { apply (sized_for_each E tbl_kpi_catalog 1 1).
    intros [[[[[[[[k0 k1] k2] k3] k4] k5] k6] k7] k8] _ lo hi.
    cbv beta iota. sized_body. }
  intros [].
  eapply hoare_bind; [apply sized_commit | intros ?; cbv beta].
  apply hoare_ret. intros d p H. exact H.
Qed.

Lemma seed_outcome :
  hoare (holding [] (λ _, 0) (λ _, 0))
    (seed rng faker today n1 n2 n3 n4 n5 n6)
    (λ _ d p,
       expected_failure n1 n2 n3 n4 n6 = None
       ∧ ∀ t, min_rows t ≤ size d t ≤ max_rows t) E.
Proof.
  unfold seed. eapply hoare_bind; [apply generate_sample_data_outcome|].
  intros []. apply hoare_fact. intros Hgood.
  eapply hoare_post; [apply insert_kpi_catalog_sizes|].
  intros [] d p (_ & _ & Hs). split; [done|]. intros t. specialize (Hs t).
  unfold bump in Hs. destruct t; (case_decide as Hc;
    [try discriminate Hc | try congruence]); simpl in *; lia.
Qed.

End Outcomes.

(** ** How a run ends and what it leaves *)

Section OutcomeClaims.
Import Seed.
Local Open Scope nat_scope.

Variable rng : nat → nat.
Variable faker : string → nat → string.
Variable today : date.

Lemma new_session_holding d :
  holding [] (λ _, 0) (λ _, 0) (recreate_schema d)
    (pending (new_session (recreate_schema d))).
Proof.
  split; [done|]. split.
  - intros t. rewrite recreate_schema_empty. eauto.
  - intros t. unfold size, table_contents.
    rewrite recreate_schema_empty. simpl. lia.
Qed.

Lemma expected_failure_None n1 n2 n3 n4 n6 :
  expected_failure n1 n2 n3 n4 n6 = None
  ↔ 0 < n1 ∧ 0 < n4 ∧ (0 < n3 → 0 < n2) ∧ (0 < n6 → 0 < n3).
Proof.
  unfold expected_failure. repeat case_decide; split; (done || lia).
Qed.


(** X10: a run that returns leaves in each table the number of rows the
    counts give: exactly so for the tables filled by counted loops, and
    within the bounds of the random count per project for goals, defects,
    issues and costs. *)
Theorem seed_row_counts n1 n2 n3 n4 n5 n6 (d : Database) :
  (seed rng faker today n1 n2 n3 n4 n5 n6
     (new_session (recreate_schema d))).1 = Returned () →
  ∀ t, min_rows n1 n2 n3 n4 n5 n6 t
       ≤ size
           (database
              (seed rng faker today n1 n2 n3 n4 n5 n6
                 (new_session (recreate_schema d))).2) t
       ≤ max_rows n1 n2 n3 n4 n5 n6 t.
Proof.
  intros Hr.
  pose proof (seed_outcome rng faker today n1 n2 n3 n4 n5 n6
                (new_session (recreate_schema d)) (new_session_holding d))
    as H.
  destruct (seed rng faker today n1 n2 n3 n4 n5 n6
              (new_session (recreate_schema d))) as [[[]|e] s']; simpl in *;
    [by destruct H | discriminate].
Qed.

Lemma main_unfold (d : Database) :
  main rng faker today d
  = ((seed rng faker today 50 100 100 1500 1000 1000
        (new_session (recreate_schema d))).1,
     database
       (seed rng faker today 50 100 100 1500 1000 1000
          (new_session (recreate_schema d))).2).
Proof. unfold main. cbv zeta. reflexivity. Qed.

Lemma pair_fst {A B} (a : A) (b : B) : (a, b).1 = a.
Proof. reflexivity. Qed.

Lemma pair_snd {A B} (a : A) (b : B) : (a, b).2 = b.
Proof. reflexivity. Qed.

(** X11: [main], with the default counts, returns, whatever the random
    values and whatever the database held, and leaves 50 companies, 1000
    revenue rows and 100 clients for each, 100 projects with 5 team members
    and 2 milestones each, 1500 employees, 1000 time entries, 75 exits, 12
    hiring rows, 500 training rows and the 7 catalog entries. *)
Theorem main_default_run (d : Database) :
  (main rng faker today d).1 = Returned ()
  ∧ size (main rng faker today d).2 <$>
      [tbl_companies; tbl_company_revenue; tbl_clients;
       tbl_project_categories; tbl_projects; tbl_project_details;
       tbl_employees; tbl_team_members; tbl_milestones; tbl_time_entry;
       tbl_employee_exit; tbl_hiring_pipeline; tbl_training_attendance;
       tbl_kpi_catalog]
    = [50; 1000 * 50; 100 * 50; 4; 100; 100; 1500; 5 * 100; 2 * 100; 1000;
       75; 12; 500; 7].
Proof.
  rewrite main_unfold, pair_fst, pair_snd.
  pose proof (seed_outcome rng faker today 50 100 100 1500 1000 1000
                (new_session (recreate_schema d)) (new_session_holding d))
    as H.
  destruct (seed rng faker today 50 100 100 1500 1000 1000
              (new_session (recreate_schema d))) as [[[]|e] s'];
    cbn [fst snd] in *.
  - destruct H as [_ H]. split; [done|].
    assert (∀ t, min_rows 50 100 100 1500 1000 1000 t
                 = max_rows 50 100 100 1500 1000 1000 t →
                 size (database s') t = min_rows 50 100 100 1500 1000 1000 t)
      as Heq.
    { intros t Ht. specialize (H t). rewrite <- Ht in H. lia. }
    cbn [fmap list_fmap].
    rewrite !Heq by reflexivity. reflexivity.
  - exfalso. unfold raises_as in H.
    rewrite (proj2 (expected_failure_None 50 100 100 1500 1000)) in H by lia.
    discriminate.
Qed.

End OutcomeClaims.

Lemma seed_row_counts_witness :
  (Seed.min_rows 2 2 3 4 2 5 Seed.tbl_team_members
   ≤ Seed.size
       (Seed.database
          (Seed.seed (λ n, 7 * n + 3) (λ p _, p) 0%Z 2 2 3 4 2 5
             (Seed.new_session (Seed.recreate_schema (λ _, None)))).2)
       Seed.tbl_team_members
   ≤ Seed.max_rows 2 2 3 4 2 5 Seed.tbl_team_members)%nat.
Proof.
  apply (seed_row_counts (λ n, 7 * n + 3) (λ p _, p) 0%Z 2 2 3 4 2 5
           (λ _, None)).
  by vm_compute.
Defined.

(** ** The values of the generated rows *)

Section Values.
Import Seed.
Local Open Scope M_scope.

Variable rng : nat → nat.
Variable faker : string → nat → string.
Variable today : date.

Local Abbreviation V := (valid_state today).
Local Abbreviation EV := (λ (_ : Exception) (d : Database), valid_db today d).
Local Abbreviation XT := (λ _ : Exception, True).

Lemma insert_row_valid d r d' k :
  insert_row d r = Some (d', k) →
  valid_db today d → valid_row today r → valid_db today d'.
Proof.
  intros [He Hne]%insert_row_contents Hd Hr t o Ho.
  destruct (decide (t = table_of r)) as [->|Hn].
  - rewrite He, elem_of_app in Ho. destruct Ho as [Ho|Ho].
    + by apply Hd with (table_of r).
    + apply list_elem_of_singleton in Ho. by subst o.
  - rewrite Hne in Ho by done. by apply Hd with t.
Qed.

Lemma flush_valid rs : ∀ d d' objs,
  flush d rs = Some (d', objs) →
  valid_db today d → Forall (valid_row today) rs → valid_db today d'.
Proof.
  induction rs as [|r rs IH]; intros d d' objs; simpl.
  - by intros [= <- <-].
  - destruct (insert_row d r) as [[d1 k]|] eqn:E1; simpl; [|discriminate].
    destruct (flush d1 rs) as [[d2 out]|] eqn:E2; simpl; [|discriminate].
    intros [= <- <-] Hd Hrs. inversion Hrs; subst.
    eapply IH; [exact E2 | by eapply insert_row_valid | done].
Qed.

Lemma valid_add r :
  valid_row today r → hoare V (session_add r) (λ _, V) EV.
Proof.
  intros Hr s [Hd Hp]. simpl. split; [done|].
  apply Forall_app_2; [done|]. by apply Forall_cons_2.
Qed.

Lemma valid_add_all rs :
  Forall (valid_row today) rs → hoare V (session_add_all rs) (λ _, V) EV.
Proof.
  intros Hr s [Hd Hp]. simpl. split; [done|]. by apply Forall_app_2.
Qed.

Lemma valid_commit : hoare V session_commit (λ _, V) EV.
Proof.
  intros s [Hd Hp]. unfold session_commit.
  destruct (flush _ _) as [[d' objs]|] eqn:E; simpl; [|done].
  split; [by eapply flush_valid | apply Forall_nil_2].
Qed.

Lemma valid_for_each {A} (l : list A) body :
  (∀ x, x ∈ l → hoare V (body x) (λ _, V) EV) →
  hoare V (for_each l body) (λ _, V) EV.
Proof.
  intros Hb. eapply hoare_post.
  - apply (hoare_for_each (λ _, V)). intros i x Hx. apply Hb.
    by eapply list_elem_of_lookup_2.
  - by intros [].
Qed.

Lemma valid_exit e d p : XT e → V d p → EV e d.
Proof. by intros _ [? _]. Qed.

Lemma pure_collect_valid {A} (l : list A) (body : A → M (list Row)) :
  (∀ x, x ∈ l → pure_op (body x) (Forall (valid_row today)) XT) →
  pure_op (collect l body) (Forall (valid_row today)) XT.
Proof.
  intros Hb. eapply pure_weaken;
    [apply (pure_collect _ _ (λ _, Forall (valid_row today))); exact Hb|].
  intros ys (yss & -> & H). apply Forall_concat. clear Hb.
  induction H as [|x y l' yss' Hy _ IH]; [apply Forall_nil_2|].
  apply Forall_cons_2; [exact Hy | exact IH].
Qed.

(** [today if random.random() > p else None] *)
Lemma pure_maybe_today p (X : Exception → Prop) :
  pure_op (if_random_gt rng p (ret today))
    (λ o, o = None ∨ o = Some today) X.
Proof.
  eapply pure_weaken.
  - apply pure_if_random_gt with (R := λ a, a = today). by apply pure_ret.
  - intros [c|] H; [right; f_equal; by apply H | by left].
Qed.

(** [base - timedelta(days=randint(a, b)) if random.random() > p else None] *)
Lemma pure_maybe_ago p a b base (X : Exception → Prop) :
  (a ≤ b)%Z →
  pure_op
    (if_random_gt rng p (bind (randint rng a b) (λ d, ret (base - d)%Z)))
    (λ o, ∀ c, o = Some c → (base - b ≤ c ≤ base - a)%Z) X.
Proof.
  intros Hab.
  apply pure_if_random_gt with (R := λ c, (base - b ≤ c ≤ base - a)%Z).
  eapply pure_bind; [by apply pure_randint|]. intros d Hd.
  apply pure_ret. cbv beta in *. lia.
Qed.

Ltac vpure :=
  lazymatch goal with
  | |- pure_op (bind _ _) _ _ =>
      eapply pure_bind; [vpure | intros; cbv beta in *; vpure]
  | |- pure_op (ret _) ?R _ =>
      tryif is_evar R
      then (apply (pure_ret _ (λ _, True)); exact I)
      else (apply pure_ret)
  | |- pure_op (draw _) _ _ => apply pure_draw
  | |- pure_op (fake _ _ _) _ _ => apply pure_fake
  | |- pure_op (randint _ _ _) _ _ => apply pure_randint; lia
  | |- pure_op (uniform_round2 _ _ _) _ _ => apply pure_uniform_round2; lia
  | |- pure_op (random_gt _ _) _ _ => apply pure_random_gt
  | |- pure_op (choice _ _) _ _ => apply pure_choice; intros; exact I
  | |- pure_op (sample _ _ _) _ _ => apply pure_sample; intros; exact I
  | |- pure_op (index_mod_len _ _) _ _ =>
      apply pure_index_mod_len; intros; exact I
  | |- pure_op (if_random_gt _ _ _) _ _ =>
      first [ apply pure_maybe_today
            | apply pure_maybe_ago; lia
            | eapply pure_if_random_gt; vpure ]
  end.

(** The row just built is valid, by the facts on the values drawn for it. *)
Ltac vrow :=
  cbn [valid_row];
  repeat match goal with
         | H : _ ∧ _ |- _ => destruct H
         | |- _ ∧ _ => split
         | b : bool |- _ => destruct b
         end;
  first [ exact I | assumption | reflexivity | lia
        | (left; reflexivity) | (right; reflexivity) ].

Ltac vbody :=
  lazymatch goal with
  | |- hoare _ (bind session_commit _) _ _ =>
      eapply hoare_bind; [apply valid_commit | intros ?; vbody]
  | |- hoare _ (bind (session_add _) _) _ _ =>
      eapply hoare_bind; [apply valid_add; vrow | intros []; vbody]
  | |- hoare _ (bind (for_each _ _) _) _ _ =>
      eapply hoare_bind;
        [apply valid_for_each; intros; vbody | intros []; vbody]
  | |- hoare _ (bind _ _) _ _ =>
      eapply (hoare_pure _ _ _ _ XT);
        [vpure | apply valid_exit | intros; cbv beta in *; vbody]
  | |- hoare _ (session_add _) _ _ => apply valid_add; vrow
  | |- hoare _ (ret _) _ _ => apply hoare_ret; intros ? ? ?; assumption
  | |- hoare _ (if decide _ then _ else _) _ _ => case_decide; vbody
  | |- hoare _ (for_each _ _) _ _ => apply valid_for_each; intros; vbody
  end.

Ltac vcollect :=
  eapply (hoare_pure _ _ _ _ XT);
    [ repeat (apply pure_collect_valid; intros); vpure;
      apply Forall_cons_2; [vrow | apply Forall_nil_2]
    | apply valid_exit
    | intros ? ?;
      eapply hoare_bind; [by apply valid_add_all | intros []];
      eapply hoare_bind; [apply valid_commit | intros ?] ].

(** A stage that fills a table by a loop, then commits. *)
Ltac vstage :=
  eapply hoare_bind; [apply valid_for_each; intros; vbody | intros []];
  eapply hoare_bind; [apply valid_commit | intros ?].

Lemma generate_sample_data_valid n1 n2 n3 n4 n5 n6 :
  hoare V (generate_sample_data rng faker today n1 n2 n3 n4 n5 n6)
    (λ _, V) EV.
Proof.
  unfold generate_sample_data.
  (* Companies *)
  vcollect.
  (* Company Revenue *)
  vstage.
  (* Clients *)
  vcollect.
  (* Project Categories *)
  cbv zeta.
  eapply hoare_bind.
  { apply valid_add_all. cbn [fmap list_fmap].
    repeat (apply Forall_cons_2; [split; [repeat constructor | reflexivity]|]).
    apply Forall_nil_2. }
  intros [].
  eapply hoare_bind; [apply valid_commit | intros ?].
  (* Projects *)
  vcollect.
  (* Project Details *)
  vstage.
  (* Employees *)
  vcollect.
  (* Team Members, Project Goals, Milestones, Defects, Issues *)
  do 5 vstage.
  (* Time Entries, Project Cost *)
  do 2 vstage.
  (* Employee Exits *)
  cbv zeta.
  eapply (hoare_pure _ _ _ _ XT); [vpure | apply valid_exit | intros ? _].
  vstage.
  (* Hiring Pipeline *)
  vstage.
  (* Training Attendance *)
  eapply hoare_bind.
  { apply valid_for_each. intros [idx emp] _. cbv beta iota. vbody. }
  intros [].
  eapply hoare_bind; [apply valid_commit | intros ?].
  apply hoare_ret. intros ? ? H'. exact H'.
Qed.

Lemma insert_kpi_catalog_valid :
  hoare V insert_kpi_catalog (λ _, V) EV.
Proof.
  unfold insert_kpi_catalog.
  eapply hoare_bind.
  { apply valid_for_each.
    intros [[[[[[[[k0 k1] k2] k3] k4] k5] k6] k7] k8] _.
    cbv beta iota. by apply valid_add. }
  intros [].
  eapply hoare_bind; [apply valid_commit | intros ?].
  apply hoare_ret. intros ? ? H'. exact H'.
Qed.

Lemma seed_valid n1 n2 n3 n4 n5 n6 :
  hoare V (seed rng faker today n1 n2 n3 n4 n5 n6) (λ _, V) EV.
Proof.
  unfold seed. eapply hoare_bind; [apply generate_sample_data_valid|].
  intros []. apply insert_kpi_catalog_valid.
Qed.

End Values.

Section ValueClaims.
Import Seed.
Local Open Scope nat_scope.

Variable rng : nat → nat.
Variable faker : string → nat → string.
Variable today : date.

Lemma new_session_valid d :
  valid_state today (recreate_schema d)
    (pending (new_session (recreate_schema d))).
Proof.
  split; [|apply Forall_nil_2]. intros t o.
  unfold table_contents. rewrite recreate_schema_empty. simpl.
  by intros ?%elem_of_nil.
Qed.

Lemma seed_valid_db n1 n2 n3 n4 n5 n6 d :
  valid_db today
    (database
       (seed rng faker today n1 n2 n3 n4 n5 n6
          (new_session (recreate_schema d))).2).
Proof.
  pose proof (seed_valid rng faker today n1 n2 n3 n4 n5 n6
                (new_session (recreate_schema d)) (new_session_valid d))
    as H.
  destruct (seed rng faker today n1 n2 n3 n4 n5 n6
              (new_session (recreate_schema d))) as [[[]|e] s']; simpl in *.
  - by destruct H.
  - done.
Qed.

(** X12: Whatever the counts and the random stream, and whether the run
    returns or raises part-way, every row a seed run has stored in a fresh
    schema has its drawn columns inside the ranges and value lists the
    generator draws them from: amounts, percentages and hours within their
    [randint]/[uniform] bounds, statuses and categories among the listed
    choices, flags 0 or 1, dates within the drawn number of days of today
    or of the row's own planned date. *)
Theorem seed_rows_valid n1 n2 n3 n4 n5 n6 (d : Database) t o :
  o ∈ table_contents
        (database
           (seed rng faker today n1 n2 n3 n4 n5 n6
              (new_session (recreate_schema d))).2) t →
  valid_row today o.2.
Proof. apply seed_valid_db. Qed.

(** X13: Every project a seed run stores started between 30 and 500 days
    before today, is planned to end after its start, and has an actual end
    date at least 40 days after its start (the actual end may precede the
    planned end by up to 10 days, never the start). *)
Theorem seed_project_dates_ordered n1 n2 n3 n4 n5 n6 (d : Database) t k
    code name cli comp cat start_date planned_end_date actual_end_date
    status budget :
  (k, Project code name cli comp cat start_date planned_end_date
        actual_end_date status budget)
  ∈ table_contents
      (database
         (seed rng faker today n1 n2 n3 n4 n5 n6
            (new_session (recreate_schema d))).2) t →
  (today - 500 ≤ start_date ≤ today - 30)%Z
  ∧ (start_date < planned_end_date)%Z
  ∧ (start_date + 40 ≤ actual_end_date)%Z.
Proof.
  intros H%seed_valid_db. cbn [valid_row snd] in H. lia.
Qed.

Lemma flush_one_table T rs :
  Forall (λ r, table_of r = T) rs → ∀ d td,
  d T = Some td →
  ∃ d' td',
    flush d rs = Some (d', zip (seq (auto_increment td) (length rs)) rs)
    ∧ d' T = Some td'
    ∧ table_rows td'
      = table_rows td ++ zip (seq (auto_increment td) (length rs)) rs
    ∧ ∀ t, t ≠ T → d' t = d t.
Proof.
  induction 1 as [|r rs Hr _ IH]; intros d td Hd; simpl.
  - exists d, td. by rewrite app_nil_r.
  - unfold insert_row. rewrite Hr, Hd. simpl.
    edestruct (IH (<[T := Some {| table_rows := table_rows td
                                     ++ [(auto_increment td, r)];
                                  auto_increment := S (auto_increment td) |}]>
                     d)) as (d' & td' & Hf & Hd' & Hrows & Hother).
    { by rewrite fn_lookup_insert. }
    simpl in *. rewrite Hf. simpl. exists d', td'.
    split; [done|]. split; [done|]. split.
    + by rewrite Hrows, <- app_assoc.
    + intros t Ht. rewrite Hother by done. by rewrite fn_lookup_insert_ne.
Qed.

Lemma kpi_loop s :
  for_each kpis (λ '(k0, k1, k2, k3, k4, k5, k6, k7, k8),
    session_add (KPICatalog k0 k1 k2 k3 k4 k5 k6 k7 k8)) s
  = (Returned (),
     {| database := database s; pending := pending s ++ kpi_rows;
        position := position s |}).
Proof.
  unfold kpis, kpi_rows. cbn [for_each fmap list_fmap].
  unfold bind, session_add, ret. cbn [database pending position].
  by rewrite <- !app_assoc.
Qed.

Lemma insert_kpi_catalog_run s d' objs :
  flush (database s) (pending s ++ kpi_rows) = Some (d', objs) →
  insert_kpi_catalog s
  = (Returned (),
     {| database := d'; pending := []; position := position s |}).
Proof.
  intros Hf. unfold insert_kpi_catalog, bind. rewrite kpi_loop.
  unfold session_commit, ret. cbn [database pending position].
  by rewrite Hf.
Qed.

(** X14: On a session with nothing pending and an existing [kpi_catalog]
    table, [insert_kpi_catalog] returns and appends its seven catalog
    entries, in list order and with consecutive keys from the table's next
    autoincrement value, after the rows already there; every other table is
    left as it was.  There is no existence check: a second call stores the
    seven entries again. *)
Theorem insert_kpi_catalog_appends s td :
  pending s = [] →
  database s tbl_kpi_catalog = Some td →
  (insert_kpi_catalog s).1 = Returned ()
  ∧ table_contents (database (insert_kpi_catalog s).2) tbl_kpi_catalog
    = table_rows td ++ zip (seq (auto_increment td) 7) kpi_rows
  ∧ (∀ t, t ≠ tbl_kpi_catalog →
       database (insert_kpi_catalog s).2 t = database s t)
  ∧ pending (insert_kpi_catalog s).2 = [].
Proof.
  intros Hp Hd.
  destruct (flush_one_table tbl_kpi_catalog kpi_rows) with (d := database s)
    (td := td) as (d' & td' & Hf & Hd' & Hrows & Hother); [|done|].
  { unfold kpi_rows, kpis. cbn [fmap list_fmap]. by repeat constructor. }
  rewrite (insert_kpi_catalog_run s d' _) by (by rewrite Hp, app_nil_l).
  cbn [fst snd database pending]. unfold table_contents. rewrite Hd'.
  done.
Qed.

End ValueClaims.

Lemma seed_rows_valid_witness :
  (1, Seed.Project "PRJ1000" "Project_0" 4 2 3 (-250)%Z (-175)%Z (-155)%Z
        "In Progress" 50248%Z)
  ∈ Seed.table_contents
      (Seed.database
         (Seed.seed (λ n, 7 * n + 3) (λ p _, p) 0%Z 2 2 3 4 2 5
            (Seed.new_session (Seed.recreate_schema (λ _, None)))).2)
      Seed.tbl_projects
  ∧ Seed.valid_row 0%Z
      (Seed.Project "PRJ1000" "Project_0" 4 2 3 (-250)%Z (-175)%Z (-155)%Z
         "In Progress" 50248%Z).
Proof.
  assert
    ((1, Seed.Project "PRJ1000" "Project_0" 4 2 3 (-250)%Z (-175)%Z (-155)%Z
           "In Progress" 50248%Z)
     ∈ Seed.table_contents
         (Seed.database
            (Seed.seed (λ n, 7 * n + 3) (λ p _, p) 0%Z 2 2 3 4 2 5
               (Seed.new_session (Seed.recreate_schema (λ _, None)))).2)
         Seed.tbl_projects) as H.
  { vm_compute. apply list_elem_of_here. }
  split; [exact H|].
  exact (seed_rows_valid (λ n, 7 * n + 3) (λ p _, p) 0%Z 2 2 3 4 2 5
           (λ _, None) Seed.tbl_projects _ H).
Defined.

Lemma seed_project_dates_ordered_witness :
  (2, Seed.Project "PRJ1001" "Project_1" 4 2 3 (-306)%Z (-175)%Z (-150)%Z
        "In Progress" 50304%Z)
  ∈ Seed.table_contents
      (Seed.database
         (Seed.seed (λ n, 7 * n + 3) (λ p _, p) 0%Z 2 2 3 4 2 5
            (Seed.new_session (Seed.recreate_schema (λ _, None)))).2)
      Seed.tbl_projects
  ∧ (0 - 500 ≤ -306 ≤ 0 - 30)%Z ∧ (-306 < -175)%Z ∧ (-306 + 40 ≤ -150)%Z.
Proof.
  assert
    ((2, Seed.Project "PRJ1001" "Project_1" 4 2 3 (-306)%Z (-175)%Z (-150)%Z
           "In Progress" 50304%Z)
     ∈ Seed.table_contents
         (Seed.database
            (Seed.seed (λ n, 7 * n + 3) (λ p _, p) 0%Z 2 2 3 4 2 5
               (Seed.new_session (Seed.recreate_schema (λ _, None)))).2)
         Seed.tbl_projects) as H.
  { vm_compute. apply list_elem_of_further, list_elem_of_here. }
  split; [exact H|].
  exact (seed_project_dates_ordered (λ n, 7 * n + 3) (λ p _, p) 0%Z
           2 2 3 4 2 5 (λ _, None) Seed.tbl_projects 2 _ _ _ _ _ _ _ _ _ _ H).
Defined.

Lemma insert_kpi_catalog_appends_witness :
  (Seed.insert_kpi_catalog
     (Seed.new_session (Seed.recreate_schema (λ _, None)))).1 = Returned ()
  ∧ Seed.table_contents
      (Seed.database
         (Seed.insert_kpi_catalog
            (Seed.new_session (Seed.recreate_schema (λ _, None)))).2)
      Seed.tbl_kpi_catalog
    = Seed.table_rows Seed.empty_table
      ++ zip (seq (Seed.auto_increment Seed.empty_table) 7) Seed.kpi_rows
  ∧ (∀ t, t ≠ Seed.tbl_kpi_catalog →
       Seed.database
         (Seed.insert_kpi_catalog
            (Seed.new_session (Seed.recreate_schema (λ _, None)))).2 t
       = Seed.database
           (Seed.new_session (Seed.recreate_schema (λ _, None))) t)
  ∧ Seed.pending
      (Seed.insert_kpi_catalog
         (Seed.new_session (Seed.recreate_schema (λ _, None)))).2 = [].
Proof.
  apply (insert_kpi_catalog_appends
           (Seed.new_session (Seed.recreate_schema (λ _, None)))
           Seed.empty_table); reflexivity.
Defined.
